(** * A shallow embedding of the holograph-rs network monitor (src/src/main.rs)

    The development models:
    - the block watcher loop spawned by [NetworkMonitor::network_subscribe],
    - the block-job consumer task spawned by [run],
    - [NetworkMonitor::process_block], [build_filter] and [filter_builder],
    - the interleaving of the watcher tasks with the consumer task,
    - the generic [NetworkMonitor::retry], with the panic of the
      [structured_log_error] call it makes on every failure,
    - [get_env], [abi_path], [get_abis], [holograph_addresses], the start of
      [initialize_ethers], [init_providers] and [init_contracts], and the
      network tag of [structured_log_error].

    Block heights are [u64] in the source; they are modelled as [N] with the
    wrap-around of [u64] arithmetic written out where the source has it. *)

From stdpp Require Import gmap strings list fin_maps.
From Stdlib Require Import NArith Sorted.

Local Open Scope N_scope.

(** ** Machine integers *)

Definition u64_modulus : N := 2 ^ 64.

(** [lb + 1] on [u64]. A release build wraps around; the model follows it. *)
Definition u64_wrapping_add (a b : N) : N := (a + b) mod u64_modulus.

(** [u64::wrapping_sub], for operands below [2^64]. *)
Definition u64_wrapping_sub (a b : N) : N :=
  (a + u64_modulus - b) mod u64_modulus.

(** The Rust range [a..b] over [u64]: [a], [a+1], ..., [b-1]. *)
Fixpoint range_from (a : N) (n : nat) : list N :=
  match n with
  | O => []
  | S n' => a :: range_from (a + 1) n'
  end.

Definition u64_range (a b : N) : list N := range_from a (N.to_nat (b - a)).

(** ** Data model *)

(** [struct BlockJob { network: String, block: u64 }] *)
Record BlockJob := mkBlockJob { network : string; block : N }.

(** The result of [provider.get_block(hash)] once the [expect] has passed:
    [None] when the provider knows no block, [Some None] for a block
    whose [number] field is absent. *)
Definition BlockDetails := option (option N).

(** The two messages the watcher sends on its [mpsc] log channel, after
    their [format!] strings:
    "Resuming previously dropped connection, gotta do some catching up. Block: {}"
    and "A new block has been mined. New block height is [{}]". *)
Inductive LogMessage :=
  | ResumingDroppedConnection (h : N)
  | NewBlockMined (h : N).

(** The observable effects of the watcher loop, in program order. *)
Inductive WatchEvent :=
  | EvSendLog (m : LogMessage)
  | EvSetHeight (net : string) (h : N)
  | EvPushJob (j : BlockJob).

(** The state the watcher task touches: its local [last_block], the shared
    [current_block_height] and [block_jobs] maps of the monitor, and the
    trace of effects. *)
Record WatcherState := mkWatcherState {
  last_block : option N;
  current_block_height : gmap string N;
  block_jobs : gmap string (list BlockJob);
  trace : list WatchEvent
}.

Definition initial_watcher : WatcherState := mkWatcherState None ∅ ∅ [].

(** ** The watcher loop of [network_subscribe] *)

(** [actual_block.number.unwrap_or(U64::from(0)).as_u64()], or [0]. *)
Definition current_block_u64 (d : BlockDetails) : N :=
  match d with
  | Some actual_block =>
      match actual_block with
      | Some n => n
      | None => 0
      end
  | None => 0
  end.

Definition send_log (m : LogMessage) (st : WatcherState) : WatcherState :=
  mkWatcherState (last_block st) (current_block_height st) (block_jobs st)
    (trace st ++ [EvSendLog m]).

Definition set_last_block (h : N) (st : WatcherState) : WatcherState :=
  mkWatcherState (Some h) (current_block_height st) (block_jobs st) (trace st).

(** [cbh.insert(network_string.clone(), current_block_u64)] *)
Definition set_height (net : string) (h : N) (st : WatcherState) : WatcherState :=
  mkWatcherState (last_block st) (<[net := h]> (current_block_height st))
    (block_jobs st) (trace st ++ [EvSetHeight net h]).

(** [bj.entry(network).or_insert_with(Vec::new).push(job)] *)
Definition push_job (net : string) (j : BlockJob) (st : WatcherState) : WatcherState :=
  mkWatcherState (last_block st) (current_block_height st)
    (<[net := default [] (block_jobs st !! net) ++ [j]]> (block_jobs st))
    (trace st ++ [EvPushJob j]).

(** [for block in lb + 1..current_block_u64 { ... push(BlockJob { .. }) }] *)
Definition catch_up (net : string) (from to : N) (st : WatcherState) : WatcherState :=
  fold_left (fun s b => push_job net (mkBlockJob net b) s) (u64_range from to) st.

(** The tail of the loop body: record [last_block], update the shared
    height, queue the job for the current block, log the new block. *)
Definition record_block (net : string) (cur : N) (st : WatcherState) : WatcherState :=
  send_log (NewBlockMined cur)
    (push_job net (mkBlockJob net cur)
       (set_height net cur (set_last_block cur st))).

(** One iteration of [while let Some(new_block_hash) = stream.next().await]. *)
Definition watcher_step (net : string) (st : WatcherState) (d : BlockDetails)
    : WatcherState :=
  let cur := current_block_u64 d in
  match last_block st with
  | Some lb =>
      if N.eqb lb cur then st (* continue *)
      else
        let st1 :=
          if N.ltb (u64_wrapping_add lb 1) cur
          then catch_up net (u64_wrapping_add lb 1) cur
                 (send_log (ResumingDroppedConnection cur) st)
          else st in
        record_block net cur st1
  | None => record_block net cur st
  end.

Definition watcher_run (net : string) (st : WatcherState) (ds : list BlockDetails)
    : WatcherState :=
  fold_left (watcher_step net) ds st.

(** Observations of blocks that all carry a number. *)
Definition observe (hs : list N) : list BlockDetails := map (fun h => Some (Some h)) hs.

(** The queue of block jobs of one network. *)
Definition jobs_of (net : string) (st : WatcherState) : list BlockJob :=
  default [] (block_jobs st !! net).

Definition job_heights (net : string) (st : WatcherState) : list N :=
  map block (jobs_of net st).


(** ** The block-job consumer task of [run] *)

(** [Vec::pop]: removes and returns the LAST element of the vector. *)
Definition vec_pop {A : Type} (v : list A) : option (A * list A) :=
  match rev v with
  | [] => None
  | x :: r => Some (x, rev r)
  end.

(** [while let Some(block_job) = jobs_for_network.pop() { ... }]: the jobs
    in the order they are handed to [process_block], and what is left of
    the vector. Each pop shortens the vector, so [length v] rounds suffice. *)
Fixpoint drain_jobs (fuel : nat) (v : list BlockJob) : list BlockJob * list BlockJob :=
  match fuel with
  | O => ([], v)
  | S fuel' =>
      match vec_pop v with
      | None => ([], v)
      | Some (j, v') =>
          let '(handled, rest) := drain_jobs fuel' v' in (j :: handled, rest)
      end
  end.

(** One turn of the [loop] of the consumer task: lock [block_jobs], take
    the entry of "optimism" (inserting an empty vector if absent) and pop
    until it is empty. The lock is held for the whole drain, so no push of
    the watcher interleaves with it. *)
Definition consumer_iteration (bj : gmap string (list BlockJob))
    : list BlockJob * gmap string (list BlockJob) :=
  let jobs_for_network := default [] (bj !! "optimism"%string) in
  let '(handled, rest) := drain_jobs (length jobs_for_network) jobs_for_network in
  (handled, <["optimism"%string := rest]> bj).

(** ** Events, bloom filters and blocks (src/src/events/mod.rs, types.rs) *)

Module Events.

(** [pub enum EventType] *)
Inductive EventType :=
  | UNKNOWN
  | TBD
  | TransferERC20
  | HolographableTransferERC20
  | TransferERC721
  | HolographableTransferERC721
  | TransferSingleERC1155
  | HolographableTransferSingleERC1155
  | TransferBatchERC1155
  | HolographableTransferBatchERC1155
  | BridgeableContractDeployed
  | CrossChainMessageSent
  | AvailableOperatorJob
  | FinishedOperatorJob
  | FailedOperatorJob
  | PacketLZ
  | V1PacketLZ
  | TestLzEvent
  | HolographableContractEvent.

#[global] Instance EventType_eq_dec : EqDecision EventType.
Proof. solve_decision. Defined.

(** [pub enum BloomType] *)
Inductive BloomType := BUNKNOWN | TOPIC | CONTRACT | ADDRESS.

(** [pub type BloomFilter = Vec<u8>] *)
Definition BloomFilter := list Init.Byte.byte.

(** [pub type BloomFilterMap = HashMap<EventType, BloomFilter>], as an
    association list. *)
Definition BloomFilterMap := list (EventType * BloomFilter).

End Events.
Import Events.

(** [enum ContractType] of main.rs *)
Inductive ContractType := ERC20 | ERC721 | ERC1155.

(** A log of a block: the emitting address and the event kind its first
    topic identifies. *)
Record Log := mkLog { log_address : string; log_event : EventType }.

Record Transaction := mkTransaction { tx_hash : string; tx_to : option string }.

(** The block returned by [get_block_with_txs]. [block_logs] are the logs
    the chain holds for the block (what a [get_logs] call on its height
    would return); the processor never reads them. *)
Record Block := mkBlock {
  number : option N;
  transactions : list Transaction;
  logs_bloom : list Init.Byte.byte;
  block_logs : list Log
}.

(** [pub struct InterestingTransaction] (the receipt is left out). *)
Record InterestingTransaction := mkInterestingTransaction {
  bloom_id : string;
  transaction : Transaction;
  log : option Log;
  all_logs : option (list Log)
}.

(** [Result<T, E>] *)
Inductive Result (T E : Type) :=
  | Ok (x : T)
  | Err (e : E).
Arguments Ok {T E} x.
Arguments Err {T E} e.

(** ** [build_filter] and [filter_builder] *)

(** [fn build_filter(..) -> BloomFilter { vec![] }] (a placeholder). *)
Definition build_filter (bloom_type : BloomType) (event_type : EventType)
    (target_address : option string) (contract_type : option ContractType)
    : BloomFilter := [].

(** [HashMap::insert] on the association list. *)
Definition bloom_insert (k : EventType) (v : BloomFilter) (m : BloomFilterMap)
    : BloomFilterMap :=
  (k, v) :: List.filter (fun kv => negb (bool_decide (kv.1 = k))) m.

(** [filter_builder], given the [contracts] map as name ↦ address and the
    previous [bloom_filters]. *)
Definition filter_builder (contracts : gmap string string) (bloom_filters : BloomFilterMap)
    : BloomFilterMap :=
  let build_event_filter (event_type : EventType) (contract_name : option string)
      (contract_type : option ContractType) :=
    let address := contract_name ≫= fun name => contracts !! name in
    build_filter TOPIC event_type address contract_type in
  let all_filters :=
    [(TransferERC20, build_event_filter TransferERC20 None (Some ERC20));
     (TransferERC721, build_event_filter TransferERC721 None (Some ERC721));
     (TransferSingleERC1155, build_event_filter TransferSingleERC1155 None (Some ERC1155));
     (TransferBatchERC1155, build_event_filter TransferBatchERC1155 None (Some ERC1155));
     (BridgeableContractDeployed,
       build_event_filter BridgeableContractDeployed (Some "factory"%string) None);
     (HolographableContractEvent,
       build_event_filter HolographableContractEvent (Some "registry"%string) None);
     (CrossChainMessageSent,
       build_event_filter CrossChainMessageSent (Some "operator"%string) None);
     (AvailableOperatorJob,
       build_event_filter AvailableOperatorJob (Some "operator"%string) None);
     (FinishedOperatorJob,
       build_event_filter FinishedOperatorJob (Some "operator"%string) None);
     (FailedOperatorJob,
       build_event_filter FailedOperatorJob (Some "operator"%string) None)] in
  fold_left (fun m ef => bloom_insert ef.1 ef.2 m) all_filters bloom_filters.

(** ** [process_block] *)

(** A provider, reduced to the call [process_block] makes on it. *)
Record Provider := mkProvider {
  get_block_with_txs : N -> Result (option Block) string
}.

(** The part of the monitor [process_block] reads. *)
Record Monitor := mkMonitor {
  providers : gmap string Provider;
  monitor_heights : gmap string N  (* [current_block_height] *)
}.

(** The observable steps of [process_block]. The last four are the calls
    the source has commented out ([check_bloom_logs], [provider.get_logs],
    [process_transactions2], [block_job_handler]); the embedding never
    produces them, they name what a run of the processor could show. *)
Inductive ProcEvent :=
  | PGetBlockWithTxs (h : N)
  | PPrintBlockInfo (n : option N) (tx_count : nat)
  | PReadCurrentHeight (net : string)
  | PPrintNoBlock (h : N)
  | PCheckBloomLogs (candidates : list EventType)
  | PGetLogs (from to : N)
  | PProcessTransactions (txs : list InterestingTransaction)
  | PBlockJobHandler (job : BlockJob).

Record ProcOutcome := mkProcOutcome {
  proc_effects : list ProcEvent;
  interesting_transactions : list InterestingTransaction;
  is_recent_block : option bool  (* [Some b] when the recency flag is computed *)
}.

Definition process_block (m : Monitor) (job : BlockJob) : ProcOutcome :=
  let interesting_transactions : list InterestingTransaction := [] in
  match providers m !! network job with
  | Some provider =>
      match get_block_with_txs provider (block job) with
      | Ok (Some b) =>
          let current_height := default 0 (monitor_heights m !! network job) in
          let is_recent := N.ltb (u64_wrapping_sub current_height (block job)) 5 in
          (* gas pricing, bloom check, log retrieval and hand-off: commented out *)
          mkProcOutcome
            [PGetBlockWithTxs (block job);
             PPrintBlockInfo (number b) (length (transactions b));
             PReadCurrentHeight (network job)]
            interesting_transactions (Some is_recent)
      | Ok None =>
          mkProcOutcome [PGetBlockWithTxs (block job); PPrintNoBlock (block job)]
            interesting_transactions None
      | Err _ =>
          mkProcOutcome [PGetBlockWithTxs (block job)] interesting_transactions None
      end
  | None => mkProcOutcome [] interesting_transactions None
  end.

(** One turn of the consumer loop with the processing of each popped job. *)
Definition consumer_run (m : Monitor) (bj : gmap string (list BlockJob))
    : list (BlockJob * ProcOutcome) * gmap string (list BlockJob) :=
  let '(handled, bj') := consumer_iteration bj in
  (map (fun j => (j, process_block m j)) handled, bj').

(** The event kinds a run of [process_block] screened in through a bloom
    check. *)
Definition bloom_candidates (o : ProcOutcome) : list EventType :=
  concat (map (fun e => match e with PCheckBloomLogs ks => ks | _ => [] end)
              (proc_effects o)).

Definition retrieves_logs (o : ProcOutcome) : bool :=
  existsb (fun e => match e with PGetLogs _ _ => true | _ => false end) (proc_effects o).

Definition hands_off (o : ProcOutcome) : bool :=
  existsb (fun e => match e with
                    | PProcessTransactions _ | PBlockJobHandler _ => true
                    | _ => false end) (proc_effects o).

(** ** Environment, ABIs and addresses (environment.rs, contracts/mod.rs) *)

(** What a call returns, or the message of the panic it raises. *)
Inductive Outcome (A : Type) :=
  | Returns (a : A)
  | Panics (msg : string).
Arguments Returns {A} a.
Arguments Panics {A} msg.

Definition outcome_bind {A B : Type} (o : Outcome A) (k : A -> Outcome B) : Outcome B :=
  match o with
  | Returns a => k a
  | Panics m => Panics m
  end.

#[global] Instance Outcome_bind : MBind Outcome := fun _ _ k o => outcome_bind o k.
#[global] Instance Outcome_ret : MRet Outcome := fun _ a => Returns a.

(** [pub enum Environment] *)
Inductive Environment := Localhost | Experimental | Develop | Testnet | Mainnet.

#[global] Instance Environment_eq_dec : EqDecision Environment.
Proof. solve_decision. Defined.

(** [NetworkMonitor::get_env]. [holograph_env] is the result of
    [std::env::var("HOLOGRAPH_ENV")]: [Some s] for [Ok s], [None] for its
    [Err] (the variable is unset, or its value is not valid Unicode), which
    [unwrap_or_else] turns into "develop" in both cases. *)
Definition get_env (holograph_env : option string) : Result Environment string :=
  let env_str := default "develop"%string holograph_env in
  if String.eqb env_str "localhost" then Ok Localhost
  else if String.eqb env_str "experimental" then Ok Experimental
  else if String.eqb env_str "develop" then Ok Develop
  else if String.eqb env_str "testnet" then Ok Testnet
  else if String.eqb env_str "mainnet" then Ok Mainnet
  else Err "Unsupported HOLOGRAPH_ENV value"%string.

(** The contract names [abi_path] knows for "develop", each with the file
    its [include_str!] embeds. *)
Definition develop_abis : list (string * string) :=
  [("CxipERC721", "../../abis/develop/CxipERC721.json");
   ("Faucet", "../../abis/develop/Faucet.json");
   ("Holograph", "../../abis/develop/Holograph.json");
   ("HolographBridge", "../../abis/develop/HolographBridge.json");
   ("HolographDropERC721", "../../abis/develop/HolographDropERC721.json");
   ("HolographERC20", "../../abis/develop/HolographERC20.json");
   ("HolographERC721", "../../abis/develop/HolographERC721.json");
   ("HolographFactory", "../../abis/develop/HolographFactory.json");
   ("HolographInterfaces", "../../abis/develop/HolographInterfaces.json");
   ("HolographOperator", "../../abis/develop/HolographOperator.json");
   ("HolographRegistry", "../../abis/develop/HolographRegistry.json");
   ("Holographer", "../../abis/develop/Holographer.json");
   ("LayerZeroEndpointInterface", "../../abis/develop/LayerZeroEndpointInterface.json");
   ("MockLZEndpoint", "../../abis/develop/MockLZEndpoint.json");
   ("EditionsMetadataRenderer", "../../abis/develop/EditionsMetadataRenderer.json");
   ("Owner", "../../abis/develop/Owner.json")]%string.

(** [abi_path]: the ABI of a contract, as the path of the embedded file. *)
Definition abi_path (environment contract : string) : Outcome string :=
  if String.eqb environment "develop" then
    match List.find (fun nf => String.eqb nf.1 contract) develop_abis with
    | Some nf => Returns nf.2
    | None => Panics "Unsupported contract"
    end
  else Panics "Unsupported environment".

(** [pub struct ContractAbis] *)
Record ContractAbis := mkContractAbis {
  cxip_erc721_abi : string;
  faucet_abi : string;
  holograph_abi : string;
  holograph_bridge_abi : string;
  holograph_drop_erc721_abi : string;
  holograph_erc20_abi : string;
  holograph_erc721_abi : string;
  holograph_factory_abi : string;
  holograph_interfaces_abi : string;
  holograph_operator_abi : string;
  holograph_registry_abi : string;
  holographer_abi : string;
  layer_zero_abi : string;
  mock_lz_endpoint_abi : string;
  editions_metadata_renderer_abi : string;
  owner_abi : string
}.

(** [get_abis]: the fields are evaluated in order, the first panic wins. *)
Definition get_abis (environment : string) : Outcome ContractAbis :=
  a1 ← abi_path environment "CxipERC721" ;
  a2 ← abi_path environment "Faucet" ;
  a3 ← abi_path environment "Holograph" ;
  a4 ← abi_path environment "HolographBridge" ;
  a5 ← abi_path environment "HolographDropERC721" ;
  a6 ← abi_path environment "HolographERC20" ;
  a7 ← abi_path environment "HolographERC721" ;
  a8 ← abi_path environment "HolographFactory" ;
  a9 ← abi_path environment "HolographInterfaces" ;
  a10 ← abi_path environment "HolographOperator" ;
  a11 ← abi_path environment "HolographRegistry" ;
  a12 ← abi_path environment "Holographer" ;
  a13 ← abi_path environment "LayerZeroEndpointInterface" ;
  a14 ← abi_path environment "MockLZEndpoint" ;
  a15 ← abi_path environment "EditionsMetadataRenderer" ;
  a16 ← abi_path environment "Owner" ;
  Returns (mkContractAbis a1 a2 a3 a4 a5 a6 a7 a8 a9 a10 a11 a12 a13 a14 a15 a16).

(** [HashMap<Environment, Address>] as an association list; [insert]
    replaces the entry of the key. *)
Definition env_insert (k : Environment) (v : string) (m : list (Environment * string))
    : list (Environment * string) :=
  (k, v) :: List.filter (fun kv => negb (bool_decide (kv.1 = k))) m.

Definition env_lookup (k : Environment) (m : list (Environment * string)) : option string :=
  option_map snd (List.find (fun kv => bool_decide (kv.1 = k)) m).

(** [holograph_addresses]; the literals are valid addresses, so the
    [expect]s never fire. *)
Definition holograph_addresses : list (Environment * string) :=
  env_insert Mainnet "0x6429b42da2a06aA1C46710509fC96E846F46181e"
  (env_insert Testnet "0x6429b42da2a06aA1C46710509fC96E846F46181e"
  (env_insert Develop "0x8dd0A4D129f03F1251574E545ad258dE26cD5e97"
  (env_insert Experimental "0x199728d88a68856868f50FC259F01Bb4D2672Da9"
  (env_insert Localhost "0xa3931469C1D058a98dde3b5AEc4dA002B6ca7446" [])))).

(** [std::env::VarError]; its [Display] texts are "environment variable
    not found" and "environment variable was not valid unicode: {:?}". *)
Inductive VarError := NotPresent | NotUnicode.

(** How far [initialize_ethers] gets before its first RPC or JSON call:
    an [Err] it returns, a panic, or the holograph contract it is about to
    create in [init_contracts]. *)
Inductive InitStage :=
  | InitError (msg : string)
  | InitPanic (msg : string)
  | InitCreateHolograph (env : Environment) (address : string) (abi : string).

(** [initialize_ethers] up to [create_contract] of the holograph contract.
    [provider_url] is the result of [std::env::var("PROVIDER_URL")], which
    [?] returns when it is an error; [holograph_env] is read as in
    [get_env]. [networks] is ["optimism"] as [new] sets it, so
    [init_providers] connects once, inserts a provider for "optimism" and
    the lookup that follows finds it. [Provider::<Http>::connect] is
    [try_connect(url).await.unwrap()], and the one error [try_connect]
    returns is that of [Provider::try_from(url)], i.e. of [Url::parse]
    ([get_chainid] failing is ignored): [url_parses u] is whether
    [Url::parse u] succeeds. *)
Definition initialize_ethers_stage (url_parses : string -> bool)
    (provider_url : Result string VarError) (holograph_env : option string) : InitStage :=
  match provider_url with
  | Err NotPresent => InitError "environment variable not found"
  | Err NotUnicode => InitError "environment variable was not valid unicode"
  | Ok u =>
      if negb (url_parses u)
      then InitPanic "called `Result::unwrap()` on an `Err` value"
      else
        match get_env holograph_env with
        | Err e => InitError e
        | Ok holograph_env' =>
            let env_str := default "develop"%string holograph_env in
            match get_abis env_str with
            | Panics m => InitPanic m
            | Returns abis =>
                match env_lookup holograph_env' holograph_addresses with
                | None => InitError "Holograph address not found"
                | Some a => InitCreateHolograph holograph_env' a (holograph_abi abis)
                end
            end
        end
  end.

(** ** The network name of [structured_log_error] *)

(** [char::to_uppercase] on an ASCII character. *)
Definition ascii_to_upper (c : Ascii.ascii) : Ascii.ascii :=
  let n := Ascii.nat_of_ascii c in
  if (97 <=? n)%nat && (n <=? 122)%nat then Ascii.ascii_of_nat (n - 32) else c.

(** [network.chars().nth(0).unwrap_or_default().to_uppercase().to_string()
    + &network[1..]] on a valid UTF-8 string, as its bytes: the slice
    panics on an empty string, and when the first character takes more
    than one byte (its first byte is not ASCII). *)
Definition capitalize_network (network : string) : Outcome string :=
  match network with
  | EmptyString => Panics "byte index 1 is out of bounds"
  | String c rest =>
      if (Ascii.nat_of_ascii c <? 128)%nat
      then Returns (String (ascii_to_upper c) rest)
      else Panics "byte index 1 is not a char boundary"
  end.

(** The network and environment tags of [structured_log_error]; the
    timestamp, colours and trimmed message are only printed. *)
Definition structured_log_error_tags (holograph_env : option string) (network : string)
    : Outcome (string * string) :=
  network_name ← capitalize_network network ;
  let env_name :=
    match get_env holograph_env with
    | Ok Localhost => "Localhost" | Ok Experimental => "Experimental"
    | Ok Develop => "Develop" | Ok Testnet => "Testnet" | Ok Mainnet => "Mainnet"
    | Err _ => "UnknownEnv"
    end%string in
  Returns (network_name, env_name).

(** ** [retry] *)

(** The [Box<dyn Error>] values [retry] can return: the error of an
    attempt is only logged, the value returned on failure is built by
    [retry] itself. *)
Inductive RetryError :=
  | MaxAttemptsReached (attempts : nat)
      (* "Maximum attempts reached, function did not succeed after {} attempts" *)
  | UnexpectedRetryLoop.
      (* "Unexpected error in retry loop" *)

Inductive RetryEvent (E : Type) :=
  | RInvoke (i : nat)
  | RLogError (network : string) (e : E)
  | RSleep (ms : N).
Arguments RInvoke {E} i.
Arguments RLogError {E} network e.
Arguments RSleep {E} ms.

Section Retry.
Context {T E : Type}.
(** [std::env::var("HOLOGRAPH_ENV")], read by the [get_env] call of
    [structured_log_error]. *)
Variable holograph_env : option string.
Variable network : string.
(** [func()], as a function of the number of earlier invocations. *)
Variable func : nat -> Result T E.
Variable attempts : nat.
Variable interval : N.

(** [for i in 0..attempts { .. }] from index [i], [fuel] rounds left. A
    failed attempt first calls [structured_log_error(network, ..)], which
    panics for some network names; the trace then ends at that attempt. *)
Fixpoint retry_loop (i fuel : nat) : Outcome (Result T RetryError) * list (RetryEvent E) :=
  match fuel with
  | O => (Returns (Err UnexpectedRetryLoop), [])
  | S fuel' =>
      match func i with
      | Ok result => (Returns (Ok result), [RInvoke i])
      | Err e =>
          match structured_log_error_tags holograph_env network with
          | Panics m => (Panics m, [RInvoke i])
          | Returns _ =>
              if Nat.eqb i (attempts - 1)
              then (Returns (Err (MaxAttemptsReached attempts)), [RInvoke i; RLogError network e])
              else
                let '(res, tr) := retry_loop (S i) fuel' in
                (res, RInvoke i :: RLogError network e :: RSleep interval :: tr)
          end
      end
  end.

Definition retry : Outcome (Result T RetryError) * list (RetryEvent E) := retry_loop 0 attempts.
End Retry.

(** The indices [i] of the invocations of [func], in order. *)
Definition invocations {E : Type} (tr : list (RetryEvent E)) : list nat :=
  omap (fun ev => match ev with RInvoke i => Some i | _ => None end) tr.

Definition sleeps {E : Type} (tr : list (RetryEvent E)) : list N :=
  omap (fun ev => match ev with RSleep ms => Some ms | _ => None end) tr.

(** [HashMap::get] on the bloom filter association list. *)
Definition bloom_lookup (k : EventType) (m : BloomFilterMap) : option BloomFilter :=
  option_map snd (List.find (fun kv => bool_decide (kv.1 = k)) m).

(** The event kinds [filter_builder] builds a filter for. *)
Definition filter_kinds : list EventType :=
  [TransferERC20; TransferERC721; TransferSingleERC1155; TransferBatchERC1155;
   BridgeableContractDeployed; HolographableContractEvent; CrossChainMessageSent;
   AvailableOperatorJob; FinishedOperatorJob; FailedOperatorJob].

(** The lower-case names [get_env] accepts. *)
Definition env_var_name (e : Environment) : string :=
  match e with
  | Localhost => "localhost" | Experimental => "experimental" | Develop => "develop"
  | Testnet => "testnet" | Mainnet => "mainnet"
  end.

(** What the watcher of [net] keeps true of the state it shares. *)
Definition watcher_inv (net : string) (st : WatcherState) : Prop :=
  current_block_height st !! net = last_block st /\
  last (jobs_of net st) = mkBlockJob net <$> last_block st /\
  Forall (fun j => network j = net) (jobs_of net st).

Definition is_block_fetch (e : ProcEvent) : bool :=
  match e with PGetBlockWithTxs _ => true | _ => false end.

(** ** The tasks of [run], interleaved *)

(** The jobs pushed by a list of watcher effects, in order. *)
Definition pushes_of (tr : list WatchEvent) : list BlockJob :=
  omap (fun ev => match ev with EvPushJob j => Some j | _ => None end) tr.

(** The heights written to [current_block_height] by a list of watcher
    effects, in order. *)
Definition heights_set (tr : list WatchEvent) : list N :=
  omap (fun ev => match ev with EvSetHeight _ h => Some h | _ => None end) tr.

(** An effect the watcher task of [net] can perform: it writes only the
    height of [net] and pushes only jobs of [net]. *)
Definition from_watcher (net : string) (ev : WatchEvent) : Prop :=
  match ev with
  | EvSendLog _ => True
  | EvSetHeight n _ => n = net
  | EvPushJob j => network j = net
  end.

Definition orelse {A : Type} (a b : option A) : option A :=
  match a with Some x => Some x | None => b end.

(** The jobs of [net] in a list of jobs, in order. *)
Definition jobs_for (net : string) (l : list BlockJob) : list BlockJob :=
  List.filter (fun j => String.eqb (network j) net) l.

(** The state of the tasks spawned by [network_subscribe] and [run]: the
    local [last_block] of each watcher task (one task per network), the
    effects of the loop iteration a watcher is in that it has not
    performed yet, the shared [current_block_height] and [block_jobs]
    maps, every job pushed so far and every job handed to [process_block],
    both in order. [NetworkMonitor::new] starts with empty maps. *)
Record RunState := mkRunState {
  local_last_block : gmap string N;
  pending : gmap string (list WatchEvent);
  run_heights : gmap string N;
  run_jobs : gmap string (list BlockJob);
  pushed : list BlockJob;
  processed : list BlockJob
}.

Definition initial_run : RunState := mkRunState ∅ ∅ ∅ ∅ [] [].

(** The scheduler's choices. [WatchNext net d]: the watcher of [net],
    between two iterations, receives the next block, with details [d]; its
    local [last_block] is updated and the effects of the iteration are
    queued ([last_block] is task-local, so when it is written does not
    matter). [WatchEffect net]: the watcher of [net] performs the next of
    those effects, each under its own lock as in the source.
    [ConsumerTurn]: one turn of the consumer task, which holds the
    [block_jobs] lock for its whole drain. *)
Inductive RunAction :=
  | WatchNext (net : string) (d : BlockDetails)
  | WatchEffect (net : string)
  | ConsumerTurn.

(** One effect of the watcher of [net] on the shared maps: the channel
    send only reaches the logging task; [cbh.insert]; [bj.entry(net)
    .or_insert_with(Vec::new).push(job)]. *)
Definition perform (net : string) (ev : WatchEvent) (s : RunState) : RunState :=
  match ev with
  | EvSendLog _ => s
  | EvSetHeight n h =>
      mkRunState (local_last_block s) (pending s) (<[n := h]> (run_heights s))
        (run_jobs s) (pushed s) (processed s)
  | EvPushJob j =>
      mkRunState (local_last_block s) (pending s) (run_heights s)
        (<[net := default [] (run_jobs s !! net) ++ [j]]> (run_jobs s))
        (pushed s ++ [j]) (processed s)
  end.

Definition run_step (s : RunState) (a : RunAction) : RunState :=
  match a with
  | WatchNext net d =>
      match default [] (pending s !! net) with
      | [] =>
          let st := watcher_step net
                      (mkWatcherState (local_last_block s !! net) (run_heights s)
                         (run_jobs s) []) d in
          mkRunState
            (match last_block st with
             | Some h => <[net := h]> (local_last_block s)
             | None => local_last_block s
             end)
            (<[net := trace st]> (pending s)) (run_heights s) (run_jobs s)
            (pushed s) (processed s)
      | _ :: _ => s (* still inside an iteration: no block is received *)
      end
  | WatchEffect net =>
      match default [] (pending s !! net) with
      | [] => s
      | ev :: rest =>
          perform net ev
            (mkRunState (local_last_block s) (<[net := rest]> (pending s))
               (run_heights s) (run_jobs s) (pushed s) (processed s))
      end
  | ConsumerTurn =>
      let '(handled, bj) := consumer_iteration (run_jobs s) in
      mkRunState (local_last_block s) (pending s) (run_heights s) bj
        (pushed s) (processed s ++ handled)
  end.

Definition run_tasks (s : RunState) (acts : list RunAction) : RunState :=
  fold_left run_step acts s.

(** What the tasks keep true of the height and the pushes of network [k]:
    its pending effects are effects of its own watcher, and once they are
    performed, the shared height of [k] and the last job pushed for [k]
    agree with the watcher's local [last_block]. *)
Definition height_inv (s : RunState) (k : string) : Prop :=
  let evs := default [] (pending s !! k) in
  Forall (from_watcher k) evs /\
  orelse (last (heights_set evs)) (run_heights s !! k) = local_last_block s !! k /\
  orelse (last (pushes_of evs)) (last (jobs_for k (pushed s)))
  = mkBlockJob k <$> local_last_block s !! k.

(** What the tasks keep true of the queues: the queue of [k] holds jobs of
    [k] that were pushed, pending effects are those of the watcher of their
    network, and every processed job is a pushed job of "optimism". *)
Definition queue_inv (s : RunState) : Prop :=
  (forall k j, j ∈ default [] (run_jobs s !! k) -> network j = k /\ j ∈ pushed s) /\
  (forall k, Forall (from_watcher k) (default [] (pending s !! k))) /\
  (forall j, j ∈ processed s -> network j = "optimism"%string /\ j ∈ pushed s).

(** * Properties *)

(** ** Arithmetic and ranges *)

Lemma wrapping_add_small (a : N) : a + 1 < u64_modulus -> u64_wrapping_add a 1 = a + 1.
Proof. intros H. unfold u64_wrapping_add. apply N.mod_small. exact H. Qed.

Lemma range_from_app (a : N) (n m : nat) :
  range_from a (n + m) = range_from a n ++ range_from (a + N.of_nat n) m.
Proof.
  revert a. induction n as [|n IH]; intros a; simpl.
  - rewrite N.add_0_r. reflexivity.
  - rewrite IH. f_equal. f_equal. f_equal. lia.
Qed.

Lemma u64_range_app (a b c : N) :
  a <= b -> b <= c -> u64_range a b ++ u64_range b c = u64_range a c.
Proof.
  intros Hab Hbc. unfold u64_range.
  replace (N.to_nat (c - a)) with (N.to_nat (b - a) + N.to_nat (c - b))%nat by lia.
  rewrite range_from_app. f_equal. f_equal. lia.
Qed.

Lemma u64_range_empty (a : N) : u64_range a a = [].
Proof. unfold u64_range. rewrite N.sub_diag. reflexivity. Qed.

Lemma u64_range_snoc (a b : N) : a <= b -> u64_range a b ++ [b] = u64_range a (b + 1).
Proof.
  intros H. rewrite <- (u64_range_app a b (b + 1)) by lia. f_equal.
  unfold u64_range. replace (b + 1 - b) with 1 by lia. reflexivity.
Qed.

(** ** The effects of the watcher's building blocks *)

Lemma jobs_of_push_job (net : string) (j : BlockJob) (st : WatcherState) :
  jobs_of net (push_job net j st) = jobs_of net st ++ [j].
Proof. unfold jobs_of, push_job. simpl. rewrite lookup_insert_eq. reflexivity. Qed.

Lemma catch_up_fold (net : string) (l : list N) (st : WatcherState) :
  let st' := fold_left (fun s b => push_job net (mkBlockJob net b) s) l st in
  last_block st' = last_block st /\
  current_block_height st' = current_block_height st /\
  jobs_of net st' = jobs_of net st ++ map (mkBlockJob net) l /\
  trace st' = trace st ++ map (fun b => EvPushJob (mkBlockJob net b)) l.
Proof.
  revert st. induction l as [|b l IH]; intros st; simpl.
  - rewrite !app_nil_r. auto.
  - destruct (IH (push_job net (mkBlockJob net b) st)) as (H1 & H2 & H3 & H4).
    rewrite H1, H2, H3, H4, jobs_of_push_job. simpl.
    rewrite <- !app_assoc. auto.
Qed.

Lemma catch_up_effects (net : string) (a b : N) (st : WatcherState) :
  let st' := catch_up net a b st in
  last_block st' = last_block st /\
  current_block_height st' = current_block_height st /\
  jobs_of net st' = jobs_of net st ++ map (mkBlockJob net) (u64_range a b) /\
  trace st' = trace st ++ map (fun b => EvPushJob (mkBlockJob net b)) (u64_range a b).
Proof. apply catch_up_fold. Qed.

Lemma jobs_of_send_log (net : string) (m : LogMessage) (st : WatcherState) :
  jobs_of net (send_log m st) = jobs_of net st.
Proof. reflexivity. Qed.

Lemma record_block_effects (net : string) (cur : N) (st : WatcherState) :
  let st' := record_block net cur st in
  last_block st' = Some cur /\
  current_block_height st' = <[net := cur]> (current_block_height st) /\
  jobs_of net st' = jobs_of net st ++ [mkBlockJob net cur] /\
  trace st' = trace st ++ [EvSetHeight net cur; EvPushJob (mkBlockJob net cur);
                           EvSendLog (NewBlockMined cur)].
Proof.
  unfold record_block. split; [reflexivity|]. split; [reflexivity|]. split.
  - rewrite jobs_of_send_log, jobs_of_push_job. reflexivity.
  - simpl. rewrite <- !app_assoc. reflexivity.
Qed.

(** A forward step appends the jobs of [lb+1 ..= cur]. *)
Lemma watcher_step_forward (net : string) (st : WatcherState) (lb cur : N) :
  last_block st = Some lb -> lb <= cur -> cur < u64_modulus ->
  let st' := watcher_step net st (Some (Some cur)) in
  last_block st' = Some cur /\
  jobs_of net st' = jobs_of net st ++ map (mkBlockJob net) (u64_range (lb + 1) (cur + 1)).
Proof.
  intros Hlb Hle Hcur. simpl. unfold watcher_step. simpl. rewrite Hlb.
  destruct (N.eqb_spec lb cur) as [->|Hne].
  - rewrite u64_range_empty, app_nil_r. auto.
  - rewrite wrapping_add_small by lia.
    destruct (record_block_effects net cur
      (if lb + 1 <? cur then catch_up net (lb + 1) cur
          (send_log (ResumingDroppedConnection cur) st) else st)) as (R1 & _ & R3 & _).
    split; [exact R1|]. rewrite R3.
    rewrite <- u64_range_snoc by lia. rewrite map_app, app_assoc. f_equal.
    destruct (N.ltb_spec (lb + 1) cur).
    + destruct (catch_up_effects net (lb + 1) cur
        (send_log (ResumingDroppedConnection cur) st)) as (_ & _ & C3 & _).
      rewrite C3. reflexivity.
    + replace cur with (lb + 1) by lia. rewrite u64_range_empty, app_nil_r. reflexivity.
Qed.

Lemma last_default_cons (l h : N) (t : list N) :
  default l (last (h :: t)) = default h (last t).
Proof. destruct t; [reflexivity|]. simpl. destruct (last (n :: t)) eqn:E; [reflexivity|].
  rewrite last_None in E. discriminate. Qed.

Lemma sorted_le_last (h : N) (t : list N) : Sorted N.le (h :: t) -> h <= default h (last t).
Proof.
  revert h. induction t as [|x t IH]; intros h Hs; simpl; [lia|].
  inversion Hs as [|? ? Hs' Hhd]; subst. inversion Hhd; subst.
  specialize (IH x Hs'). rewrite last_default_cons. lia.
Qed.

Lemma watcher_run_forward (net : string) (hs : list N) (st : WatcherState) (l : N) :
  last_block st = Some l -> Sorted N.le (l :: hs) ->
  Forall (fun h => h < u64_modulus) hs ->
  jobs_of net (watcher_run net st (observe hs))
  = jobs_of net st ++ map (mkBlockJob net) (u64_range (l + 1) (default l (last hs) + 1)).
Proof.
  revert st l. induction hs as [|h t IH]; intros st l Hl Hs Hb.
  - simpl. rewrite u64_range_empty, app_nil_r. reflexivity.
  - change (watcher_run net st (observe (h :: t)))
      with (watcher_run net (watcher_step net st (Some (Some h))) (observe t)).
    inversion Hs as [|? ? Hs' Hhd]; subst. inversion Hhd; subst.
    inversion Hb as [|? ? Hh Ht]; subst.
    destruct (watcher_step_forward net st l h Hl ltac:(assumption) Hh) as [S1 S2].
    rewrite (IH _ h S1 Hs' Ht), S2, <- app_assoc, <- map_app.
    rewrite last_default_cons. f_equal. f_equal.
    apply u64_range_app; [lia|]. pose proof (sorted_le_last h t Hs'). lia.
Qed.

Lemma jobs_of_initial (net : string) : jobs_of net initial_watcher = [].
Proof. unfold jobs_of. simpl. rewrite lookup_empty. reflexivity. Qed.

Lemma map_block_jobs (net : string) (l : list N) : map block (map (mkBlockJob net) l) = l.
Proof. rewrite map_map. apply map_id. Qed.

Lemma watcher_gap_trace (net : string) (st : WatcherState) (lb H : N) :
  last_block st = Some lb -> lb + 1 < H -> H < u64_modulus ->
  trace (watcher_step net st (Some (Some H)))
  = trace st ++ [EvSendLog (ResumingDroppedConnection H)]
      ++ map (fun b => EvPushJob (mkBlockJob net b)) (u64_range (lb + 1) H)
      ++ [EvSetHeight net H; EvPushJob (mkBlockJob net H); EvSendLog (NewBlockMined H)].
Proof.
  intros Hlb Hgap Hb. unfold watcher_step. simpl. rewrite Hlb.
  destruct (N.eqb_spec lb H); [lia|].
  rewrite wrapping_add_small by lia.
  destruct (N.ltb_spec (lb + 1) H); [|lia].
  destruct (record_block_effects net H
    (catch_up net (lb + 1) H (send_log (ResumingDroppedConnection H) st))) as (_ & _ & _ & R4).
  destruct (catch_up_effects net (lb + 1) H
    (send_log (ResumingDroppedConnection H) st)) as (_ & _ & _ & C4).
  rewrite R4, C4. simpl. rewrite <- !app_assoc. reflexivity.
Qed.

(** * The claims *)

(** ** C2 *)

(** C2 (amended). For a non-decreasing sequence of observed heights
    (duplicates and forward gaps allowed, all below 2^64), the job heights
    the watcher queues for its network are exactly the range from the first
    observed height to the last, in ascending order; and on observing
    [H > last + 1] it sends the "resuming dropped connection" message, then
    queues a job for each height strictly between [last] and [H] in
    ascending order, then records [H], queues [BlockJob(H)] and sends the
    new-block message. *)
Theorem watcher_no_height_skipped (net : string) (h0 : N) (hs : list N) :
  Sorted N.le (h0 :: hs) -> Forall (fun h => h < u64_modulus) (h0 :: hs) ->
  job_heights net (watcher_run net initial_watcher (observe (h0 :: hs)))
    = u64_range h0 (default h0 (last hs) + 1)
  /\ (forall (st : WatcherState) (lb H : N),
        last_block st = Some lb -> lb + 1 < H -> H < u64_modulus ->
        trace (watcher_step net st (Some (Some H)))
        = trace st ++ [EvSendLog (ResumingDroppedConnection H)]
            ++ map (fun b => EvPushJob (mkBlockJob net b)) (u64_range (lb + 1) H)
            ++ [EvSetHeight net H; EvPushJob (mkBlockJob net H);
                EvSendLog (NewBlockMined H)]).
Proof.
  intros Hs Hb. split; [|exact (watcher_gap_trace net)].
  inversion Hb as [|? ? Hh0 Hhs]; subst.
  change (watcher_run net initial_watcher (observe (h0 :: hs)))
    with (watcher_run net (record_block net h0 initial_watcher) (observe hs)).
  destruct (record_block_effects net h0 initial_watcher) as (R1 & _ & R3 & _).
  unfold job_heights.
  rewrite (watcher_run_forward net hs _ h0 R1 Hs Hhs), R3, jobs_of_initial.
  pose proof (sorted_le_last h0 hs Hs).
  rewrite <- (u64_range_app h0 (h0 + 1)) by lia.
  rewrite map_app, map_block_jobs. f_equal.
  unfold u64_range. replace (h0 + 1 - h0) with 1 by lia. reflexivity.
Qed.

Lemma watcher_no_height_skipped_witness :
  Sorted N.le [100; 101; 105] /\ Forall (fun h => h < u64_modulus) [100; 101; 105] /\
  job_heights "optimism" (watcher_run "optimism" initial_watcher (observe [100; 101; 105]))
    = [100; 101; 102; 103; 104; 105].
Proof.
  assert (Hs : Sorted N.le [100; 101; 105]).
  { repeat constructor; vm_compute; discriminate. }
  assert (Hb : Forall (fun h => h < u64_modulus) [100; 101; 105]).
  { repeat constructor; vm_compute; reflexivity. }
  split; [exact Hs|]. split; [exact Hb|].
  exact (proj1 (watcher_no_height_skipped "optimism" 100 [101; 105] Hs Hb)).
Defined.

(** C2 as stated fails on a sequence that goes down: [100, 99] queues
    jobs 100 and 99, which is not the range from 100 to 99. *)
Lemma watcher_no_height_skipped_counterexample :
  remove_dups (job_heights "optimism"
                 (watcher_run "optimism" initial_watcher (observe [100; 99])))
  <> u64_range 100 (99 + 1).
Proof. vm_compute. discriminate. Qed.

(** ** C3 *)

(** C3 (amended). A height [H] below the last recorded height [lb] (with
    [lb] below u64::MAX) is handled like a new block: [last_block] and
    [CurrentHeight] become [H], [BlockJob(H)] is queued, and the only
    message sent is the ordinary new-block message; no anomaly message
    exists. *)
Theorem watcher_regression_recorded (net : string) (st : WatcherState) (lb H : N) :
  last_block st = Some lb -> H < lb -> lb + 1 < u64_modulus ->
  let st' := watcher_step net st (Some (Some H)) in
  last_block st' = Some H /\
  current_block_height st' = <[net := H]> (current_block_height st) /\
  jobs_of net st' = jobs_of net st ++ [mkBlockJob net H] /\
  trace st' = trace st ++ [EvSetHeight net H; EvPushJob (mkBlockJob net H);
                           EvSendLog (NewBlockMined H)].
Proof.
  intros Hlb Hlt Hb. unfold watcher_step. simpl. rewrite Hlb.
  destruct (N.eqb_spec lb H); [lia|].
  rewrite wrapping_add_small by exact Hb.
  destruct (N.ltb_spec (lb + 1) H); [lia|].
  apply record_block_effects.
Qed.

Lemma watcher_regression_recorded_witness :
  let st := watcher_run "optimism" initial_watcher (observe [100]) in
  last_block st = Some 100 /\ 99 < 100 /\ 100 + 1 < u64_modulus /\
  jobs_of "optimism" (watcher_step "optimism" st (Some (Some 99)))
    = jobs_of "optimism" st ++ [mkBlockJob "optimism" 99].
Proof.
  intros st. assert (Hl : last_block st = Some 100) by reflexivity.
  assert (Hb : 100 + 1 < u64_modulus) by (vm_compute; reflexivity).
  split; [exact Hl|]. split; [lia|]. split; [exact Hb|].
  exact (proj1 (proj2 (proj2 (watcher_regression_recorded "optimism" st 100 99 Hl
                                 ltac:(lia) Hb)))).
Defined.

(** C3 as stated fails: after [100, 99] the queue holds jobs 100 and 99,
    CurrentHeight is 99, and no anomaly message was sent. *)
Lemma watcher_regression_counterexample :
  let st := watcher_run "optimism" initial_watcher (observe [100; 99]) in
  job_heights "optimism" st = [100; 99] /\
  current_block_height st !! "optimism"%string = Some 99 /\
  trace st = [EvSetHeight "optimism" 100; EvPushJob (mkBlockJob "optimism" 100);
              EvSendLog (NewBlockMined 100);
              EvSetHeight "optimism" 99; EvPushJob (mkBlockJob "optimism" 99);
              EvSendLog (NewBlockMined 99)].
Proof. vm_compute. split; [reflexivity|]. split; reflexivity. Qed.

(** ** C8 *)

Lemma watcher_step_same_height (net : string) (st : WatcherState) (d : BlockDetails) :
  last_block st = Some (current_block_u64 d) -> watcher_step net st d = st.
Proof. intros H. unfold watcher_step. rewrite H, N.eqb_refl. reflexivity. Qed.

(** C8. An observation whose height equals the recorded [last_block] leaves
    the whole watcher state unchanged (no job, no message, no height
    update); feeding a height twice in a row to a fresh watcher queues
    exactly one job for it. *)
Theorem watcher_duplicate_is_noop (net : string) :
  (forall (st : WatcherState) (d : BlockDetails),
     last_block st = Some (current_block_u64 d) -> watcher_step net st d = st)
  /\ (forall h : N,
        jobs_of net (watcher_run net initial_watcher (observe [h; h]))
        = [mkBlockJob net h]).
Proof.
  split; [exact (watcher_step_same_height net)|].
  intros h.
  change (watcher_run net initial_watcher (observe [h; h]))
    with (watcher_step net (record_block net h initial_watcher) (Some (Some h))).
  destruct (record_block_effects net h initial_watcher) as (R1 & _ & R3 & _).
  rewrite watcher_step_same_height by exact R1.
  rewrite R3, jobs_of_initial. reflexivity.
Qed.

Lemma watcher_duplicate_is_noop_witness :
  let st := watcher_run "optimism" initial_watcher (observe [100]) in
  last_block st = Some (current_block_u64 (Some (Some 100))) /\
  watcher_step "optimism" st (Some (Some 100)) = st.
Proof.
  intros st. assert (H : last_block st = Some (current_block_u64 (Some (Some 100))))
    by reflexivity.
  split; [exact H|].
  exact (proj1 (watcher_duplicate_is_noop "optimism") st (Some (Some 100)) H).
Defined.

(** ** C10 *)

(** C10 (amended). When the block details are missing, or carry no number,
    the observed height is 0. If the last recorded height is not 0 (or
    there is none), the watcher records [last_block = 0] and
    [CurrentHeight = 0] for the network, overwriting the previous value,
    and queues [BlockJob(0)]; if the last recorded height is already 0 the
    observation is a duplicate and changes nothing. *)
Theorem watcher_missing_block_height_zero (net : string) (st : WatcherState)
    (d : BlockDetails) :
  (d = None \/ d = Some None) ->
  current_block_u64 d = 0 /\
  (last_block st <> Some 0 ->
     let st' := watcher_step net st d in
     last_block st' = Some 0 /\
     current_block_height st' = <[net := 0]> (current_block_height st) /\
     jobs_of net st' = jobs_of net st ++ [mkBlockJob net 0]) /\
  (last_block st = Some 0 -> watcher_step net st d = st).
Proof.
  intros Hd. assert (H0 : current_block_u64 d = 0) by (destruct Hd; subst; reflexivity).
  split; [exact H0|]. split.
  - intros Hne. unfold watcher_step. rewrite H0.
    destruct (last_block st) as [lb|] eqn:Hlb.
    + destruct (N.eqb_spec lb 0) as [->|_]; [congruence|].
      destruct (N.ltb_spec (u64_wrapping_add lb 1) 0); [lia|].
      destruct (record_block_effects net 0 st) as (R1 & R2 & R3 & _). auto.
    + destruct (record_block_effects net 0 st) as (R1 & R2 & R3 & _). auto.
  - intros H. apply watcher_step_same_height. rewrite H0. exact H.
Qed.

Lemma watcher_missing_block_height_zero_witness :
  let st := watcher_run "optimism" initial_watcher (observe [7]) in
  last_block st <> Some 0 /\
  jobs_of "optimism" (watcher_step "optimism" st None)
    = jobs_of "optimism" st ++ [mkBlockJob "optimism" 0].
Proof.
  intros st. assert (Hne : last_block st <> Some 0) by (vm_compute; congruence).
  split; [exact Hne|].
  exact (proj2 (proj2 (proj1 (proj2
    (watcher_missing_block_height_zero "optimism" st None (or_introl eq_refl))) Hne))).
Defined.

(** C10 as stated fails: after a first missing block, a second one is a
    duplicate of height 0 and queues no [BlockJob(0)]. *)
Lemma watcher_missing_block_counterexample :
  let st1 := watcher_run "optimism" initial_watcher [None] in
  jobs_of "optimism" st1 = [mkBlockJob "optimism" 0] /\
  jobs_of "optimism" (watcher_step "optimism" st1 None) = [mkBlockJob "optimism" 0].
Proof. vm_compute. split; reflexivity. Qed.

(** ** The consumer and [process_block] *)

Lemma drain_jobs_rev (n : nat) (v : list BlockJob) :
  length v = n -> drain_jobs n v = (rev v, []).
Proof.
  revert v. induction n as [|n IH]; intros v Hl.
  - destruct v; [reflexivity|discriminate].
  - simpl. unfold vec_pop. destruct (rev v) as [|x r] eqn:E.
    + apply (f_equal length) in E. rewrite length_rev in E. simpl in E. lia.
    + pose proof (f_equal length E) as El. rewrite length_rev in El. simpl in El.
      rewrite IH by (rewrite length_rev; lia). rewrite rev_involutive. reflexivity.
Qed.

(** The consumer hands the queued jobs of "optimism" to [process_block]
    last-pushed first and leaves an empty vector behind. *)
Lemma consumer_iteration_rev (bj : gmap string (list BlockJob)) :
  consumer_iteration bj
  = (rev (default [] (bj !! "optimism"%string)), <["optimism"%string := []]> bj).
Proof. unfold consumer_iteration. rewrite drain_jobs_rev by reflexivity. reflexivity. Qed.

Inductive process_block_result_shape : ProcOutcome -> Prop :=
  | shape_no_provider : process_block_result_shape (mkProcOutcome [] [] None)
  | shape_fetched (h : N) (n : option N) (c : nat) (net : string) (r : bool) :
      process_block_result_shape
        (mkProcOutcome [PGetBlockWithTxs h; PPrintBlockInfo n c; PReadCurrentHeight net] [] (Some r))
  | shape_no_block (h : N) :
      process_block_result_shape (mkProcOutcome [PGetBlockWithTxs h; PPrintNoBlock h] [] None)
  | shape_fetch_error (h : N) :
      process_block_result_shape (mkProcOutcome [PGetBlockWithTxs h] [] None).

Lemma process_block_shape (m : Monitor) (job : BlockJob) :
  process_block_result_shape (process_block m job).
Proof.
  unfold process_block.
  destruct (providers m !! network job) as [p|]; [|constructor].
  destruct (get_block_with_txs p (block job)) as [[b|]|e]; constructor.
Qed.

(** Whether an event is one of the commented-out stages of the processor:
    bloom check, log retrieval, transaction processing, job hand-off. *)
Definition is_pipeline_event (e : ProcEvent) : bool :=
  match e with
  | PCheckBloomLogs _ | PGetLogs _ _ | PProcessTransactions _ | PBlockJobHandler _ => true
  | _ => false
  end.

Lemma process_block_no_pipeline (m : Monitor) (job : BlockJob) :
  let o := process_block m job in
  interesting_transactions o = [] /\
  Forall (fun e => is_pipeline_event e = false) (proc_effects o) /\
  bloom_candidates o = [] /\ retrieves_logs o = false /\ hands_off o = false.
Proof.
  simpl. destruct (process_block_shape m job);
    simpl; repeat split; repeat constructor.
Qed.

(** A block holding an ERC-20 transfer log, and a monitor whose provider
    for "optimism" serves it at every height. *)
Definition transfer_block : Block :=
  mkBlock (Some 500) [mkTransaction "0x01" (Some "0x0a"%string)] []
    [mkLog "0x0a" TransferERC20].

Definition serving_monitor (fetched : Result (option Block) string)
    (heights : gmap string N) : Monitor :=
  mkMonitor {["optimism"%string := mkProvider (fun _ => fetched)]} heights.

(** ** C1 *)

(** C1 (code_bug). The consumer pops the per-network vector from its tail
    ([Vec::pop]): a queue filled oldest-first is handled newest-first.
    Concretely, observing 100 then 103 queues jobs 100, 101, 102, 103 and
    the next consumer turn hands them to [process_block] as 103, 102, 101,
    100; in general the handled order is the reverse of the queue. *)
Theorem consumer_handles_newest_first :
  let st := watcher_run "optimism" initial_watcher (observe [100; 103]) in
  map block (jobs_of "optimism" st) = [100; 101; 102; 103] /\
  map block (fst (consumer_iteration (block_jobs st))) = [103; 102; 101; 100] /\
  (forall bj : gmap string (list BlockJob),
     fst (consumer_iteration bj) = rev (default [] (bj !! "optimism"%string))).
Proof.
  split; [reflexivity|]. split; [vm_compute; reflexivity|].
  intros bj. rewrite consumer_iteration_rev. reflexivity.
Qed.

(** ** C4 *)

(** C4 (amended). No bloom screen is implemented: [build_filter] returns an
    empty filter for every input, [filter_builder] maps each of its ten
    event kinds to an empty filter, and [process_block] screens no event
    kind in, retrieves no logs and yields no interesting transaction,
    whatever the block holds. *)
Theorem bloom_screen_not_implemented :
  (forall bt et addr ct, build_filter bt et addr ct = []) /\
  (forall contracts : gmap string string,
     filter_builder contracts []
     = [(FailedOperatorJob, []); (FinishedOperatorJob, []); (AvailableOperatorJob, []);
        (CrossChainMessageSent, []); (HolographableContractEvent, []);
        (BridgeableContractDeployed, []); (TransferBatchERC1155, []);
        (TransferSingleERC1155, []); (TransferERC721, []); (TransferERC20, [])]) /\
  (forall (m : Monitor) (job : BlockJob),
     bloom_candidates (process_block m job) = [] /\
     retrieves_logs (process_block m job) = false /\
     interesting_transactions (process_block m job) = []).
Proof.
  split; [reflexivity|]. split; [reflexivity|].
  intros m job. destruct (process_block_no_pipeline m job) as (H1 & _ & H3 & H4 & _).
  auto.
Qed.

(** C4 as stated fails: [TransferERC20] is in the index and truly present
    in [transfer_block], yet processing the block screens no kind in. *)
Lemma bloom_screen_counterexample :
  let index := filter_builder ∅ [] in
  let o := process_block (serving_monitor (Ok (Some transfer_block)) {["optimism"%string := 500]})
             (mkBlockJob "optimism" 500) in
  In TransferERC20 (map fst index) /\
  In TransferERC20 (map log_event (block_logs transfer_block)) /\
  ~ In TransferERC20 (bloom_candidates o).
Proof. vm_compute. split; [tauto|]. split; [tauto|]. intros []. Qed.

(** ** C9 *)

(** C9. For every monitor state and job, [process_block] yields no
    interesting transaction and none of its effects is a bloom check, a
    log retrieval, a transaction hand-off or a job-handler call. *)
Theorem process_block_yields_nothing (m : Monitor) (job : BlockJob) :
  interesting_transactions (process_block m job) = [] /\
  Forall (fun e => is_pipeline_event e = false) (proc_effects (process_block m job)).
Proof. destruct (process_block_no_pipeline m job) as (H1 & H2 & _). auto. Qed.

(** ** C6 *)

(** C6. When the provider answers the block fetch with no block,
    [process_block] only prints the "No block was returned" line: no error,
    no interesting transaction, no recency flag; and a consumer turn still
    hands every queued job to [process_block] and empties the queue. *)
Theorem process_block_unavailable_is_skip (m : Monitor) (job : BlockJob) (p : Provider) :
  providers m !! network job = Some p ->
  get_block_with_txs p (block job) = Ok None ->
  process_block m job
    = mkProcOutcome [PGetBlockWithTxs (block job); PPrintNoBlock (block job)] [] None /\
  (forall bj : gmap string (list BlockJob),
     map fst (fst (consumer_run m bj)) = rev (default [] (bj !! "optimism"%string)) /\
     snd (consumer_run m bj) !! "optimism"%string = Some []).
Proof.
  intros Hp Hf. split.
  - unfold process_block. rewrite Hp, Hf. reflexivity.
  - intros bj. unfold consumer_run. rewrite consumer_iteration_rev. simpl.
    rewrite map_map. simpl. rewrite map_id. split; [reflexivity|].
    apply lookup_insert_eq.
Qed.

Lemma process_block_unavailable_is_skip_witness :
  let m := serving_monitor (Ok None) ∅ in
  let job := mkBlockJob "optimism" 42 in
  process_block m job = mkProcOutcome [PGetBlockWithTxs 42; PPrintNoBlock 42] [] None.
Proof.
  intros m job.
  exact (proj1 (process_block_unavailable_is_skip m job (mkProvider (fun _ => Ok None))
                  eq_refl eq_refl)).
Defined.

(** ** C7 *)

(** C7 (amended). For a job whose block is fetched, the recency flag is
    [current_height.wrapping_sub(job.block) < 5], with [current_height]
    the recorded height of the job's network or 0; a job above
    [current_height] is recent exactly when it is at least [2^64 - 4]
    above it (the wrapped difference is then below 5), and not recent
    otherwise. *)
Theorem process_block_recency (m : Monitor) (job : BlockJob) (p : Provider) (b : Block) :
  providers m !! network job = Some p ->
  get_block_with_txs p (block job) = Ok (Some b) ->
  default 0 (monitor_heights m !! network job) < u64_modulus ->
  block job < u64_modulus ->
  let cur := default 0 (monitor_heights m !! network job) in
  is_recent_block (process_block m job)
    = Some (N.ltb (u64_wrapping_sub cur (block job)) 5) /\
  (cur < block job ->
     (is_recent_block (process_block m job) = Some true
      <-> u64_modulus - 4 <= block job - cur)).
Proof.
  intros Hp Hf Hc Hh cur.
  assert (Hr : is_recent_block (process_block m job)
               = Some (N.ltb (u64_wrapping_sub cur (block job)) 5)).
  { unfold process_block. rewrite Hp, Hf. reflexivity. }
  split; [exact Hr|]. intros Hlt. rewrite Hr.
  unfold u64_wrapping_sub. fold cur in Hc.
  set (M := u64_modulus) in *. clearbody M.
  rewrite N.mod_small by lia.
  split.
  - intros E. injection E as E. apply N.ltb_lt in E. lia.
  - intros E. f_equal. apply N.ltb_lt. lia.
Qed.

Lemma process_block_recency_witness :
  let m := serving_monitor (Ok (Some transfer_block)) {["optimism"%string := 500]} in
  let job := mkBlockJob "optimism" 498 in
  is_recent_block (process_block m job) = Some true.
Proof.
  intros m job.
  rewrite (proj1 (process_block_recency m job
             (mkProvider (fun _ => Ok (Some transfer_block))) transfer_block
             eq_refl eq_refl ltac:(vm_compute; reflexivity) ltac:(vm_compute; reflexivity))).
  vm_compute. reflexivity.
Defined.

(** C7 as stated fails: with no recorded height (0) a job at height
    [2^64 - 1] lies above it and is still recent, the wrapped difference
    being 1. *)
Lemma process_block_recency_counterexample :
  let m := serving_monitor (Ok (Some transfer_block)) ∅ in
  let job := mkBlockJob "optimism" (u64_modulus - 1) in
  default 0 (monitor_heights m !! network job) < block job /\
  is_recent_block (process_block m job) = Some true.
Proof. vm_compute. split; reflexivity. Qed.

(** ** C5 *)







(** * Further properties of the code *)

(** ** The watcher keeps the shared state in step with [last_block] *)

Lemma record_block_inv (net : string) (cur : N) (st : WatcherState) :
  Forall (fun j => network j = net) (jobs_of net st) ->
  watcher_inv net (record_block net cur st).
Proof.
  intros Hf. destruct (record_block_effects net cur st) as (R1 & R2 & R3 & _).
  unfold watcher_inv. rewrite R1, R2, R3, lookup_insert_eq, last_snoc.
  split; [reflexivity|]. split; [reflexivity|].
  apply Forall_app. split; [exact Hf|]. repeat constructor.
Qed.

Lemma watcher_step_inv (net : string) (st : WatcherState) (d : BlockDetails) :
  watcher_inv net st -> watcher_inv net (watcher_step net st d).
Proof.
  intros Hinv. pose proof Hinv as (_ & _ & Hf). unfold watcher_step.
  destruct (last_block st) as [lb|].
  - destruct (N.eqb lb (current_block_u64 d)); [exact Hinv|].
    apply record_block_inv.
    destruct (N.ltb (u64_wrapping_add lb 1) (current_block_u64 d)); [|exact Hf].
    destruct (catch_up_effects net (u64_wrapping_add lb 1) (current_block_u64 d)
      (send_log (ResumingDroppedConnection (current_block_u64 d)) st)) as (_ & _ & C3 & _).
    rewrite C3, jobs_of_send_log. apply Forall_app. split; [exact Hf|].
    apply Forall_forall. intros j Hj. apply list_elem_of_In, in_map_iff in Hj.
    destruct Hj as (b & <- & _). reflexivity.
  - apply record_block_inv. exact Hf.
Qed.

Lemma watcher_run_inv (net : string) (ds : list BlockDetails) :
  watcher_inv net (watcher_run net initial_watcher ds).
Proof.
  assert (H0 : watcher_inv net initial_watcher).
  { unfold watcher_inv. rewrite jobs_of_initial. simpl. rewrite lookup_empty. auto. }
  unfold watcher_run. revert H0. generalize initial_watcher.
  induction ds as [|d ds IH]; intros st Hst; simpl; [exact Hst|].
  apply IH, watcher_step_inv, Hst.
Qed.

(** Extra. Every job the watcher of [net] queues carries [net] as its
    network. *)
Theorem watcher_jobs_carry_network (net : string) (ds : list BlockDetails) :
  Forall (fun j => network j = net) (jobs_of net (watcher_run net initial_watcher ds)).
Proof. destruct (watcher_run_inv net ds) as (_ & _ & H3). exact H3. Qed.

(** ** The watcher of one network leaves the others alone *)

Definition same_elsewhere (net' : string) (st st' : WatcherState) : Prop :=
  block_jobs st' !! net' = block_jobs st !! net' /\
  current_block_height st' !! net' = current_block_height st !! net'.

Lemma push_job_elsewhere (net net' : string) (j : BlockJob) (st : WatcherState) :
  net <> net' -> same_elsewhere net' st (push_job net j st).
Proof. intros H. split; simpl; [apply lookup_insert_ne; exact H|reflexivity]. Qed.

Lemma catch_up_fold_elsewhere (net net' : string) (l : list N) (st : WatcherState) :
  net <> net' ->
  same_elsewhere net' st (fold_left (fun s b => push_job net (mkBlockJob net b) s) l st).
Proof.
  intros H. revert st. induction l as [|b l IH]; intros st; simpl; [split; reflexivity|].
  destruct (IH (push_job net (mkBlockJob net b) st)) as [I1 I2].
  destruct (push_job_elsewhere net net' (mkBlockJob net b) st H) as [P1 P2].
  split; congruence.
Qed.

Lemma record_block_elsewhere (net net' : string) (cur : N) (st : WatcherState) :
  net <> net' -> same_elsewhere net' st (record_block net cur st).
Proof.
  intros H. split; simpl.
  - apply lookup_insert_ne. exact H.
  - apply lookup_insert_ne. exact H.
Qed.

Lemma watcher_step_elsewhere (net net' : string) (st : WatcherState) (d : BlockDetails) :
  net <> net' -> same_elsewhere net' st (watcher_step net st d).
Proof.
  intros H. unfold watcher_step.
  destruct (last_block st) as [lb|]; [|apply record_block_elsewhere, H].
  destruct (N.eqb lb (current_block_u64 d)); [split; reflexivity|].
  destruct (record_block_elsewhere net net' (current_block_u64 d)
    (if u64_wrapping_add lb 1 <? current_block_u64 d
     then catch_up net (u64_wrapping_add lb 1) (current_block_u64 d)
            (send_log (ResumingDroppedConnection (current_block_u64 d)) st)
     else st) H) as [R1 R2].
  destruct (N.ltb (u64_wrapping_add lb 1) (current_block_u64 d)); [|split; assumption].
  destruct (catch_up_fold_elsewhere net net'
    (u64_range (u64_wrapping_add lb 1) (current_block_u64 d))
    (send_log (ResumingDroppedConnection (current_block_u64 d)) st) H) as [C1 C2].
  unfold catch_up in *. split; [rewrite R1, C1|rewrite R2, C2]; reflexivity.
Qed.

Lemma watcher_run_elsewhere (net net' : string) (st : WatcherState) (ds : list BlockDetails) :
  net <> net' -> same_elsewhere net' st (watcher_run net st ds).
Proof.
  intros H. unfold watcher_run. revert st.
  induction ds as [|d ds IH]; intros st; simpl; [split; reflexivity|].
  destruct (IH (watcher_step net st d)) as [I1 I2].
  destruct (watcher_step_elsewhere net net' st d H) as [S1 S2].
  split; congruence.
Qed.

(** Extra. The watcher of [net] never changes the job queue or the
    recorded height of any other network. *)
Theorem watcher_other_networks_untouched (net net' : string) (st : WatcherState)
    (ds : list BlockDetails) :
  net <> net' ->
  block_jobs (watcher_run net st ds) !! net' = block_jobs st !! net' /\
  current_block_height (watcher_run net st ds) !! net' = current_block_height st !! net'.
Proof. intros H. exact (watcher_run_elsewhere net net' st ds H). Qed.

Lemma watcher_other_networks_untouched_witness :
  block_jobs (watcher_run "base" initial_watcher (observe [5; 9])) !! "optimism"%string
    = block_jobs initial_watcher !! "optimism"%string.
Proof.
  exact (proj1 (watcher_other_networks_untouched "base" "optimism" initial_watcher
                  (observe [5; 9]) ltac:(discriminate))).
Defined.

(** ** The consumer drains "optimism" only *)

(** Extra. A consumer turn leaves the queue of every network other than
    "optimism" as it was, leaves an empty vector for "optimism" (creating
    it when absent), and hands to [process_block] only jobs that were in
    the "optimism" queue. *)
Theorem consumer_only_drains_optimism (bj : gmap string (list BlockJob)) :
  (forall net', net' <> "optimism"%string ->
     snd (consumer_iteration bj) !! net' = bj !! net') /\
  snd (consumer_iteration bj) !! "optimism"%string = Some [] /\
  (forall j, j ∈ fst (consumer_iteration bj) -> j ∈ default [] (bj !! "optimism"%string)).
Proof.
  rewrite consumer_iteration_rev. simpl. split; [|split].
  - intros net' H. apply lookup_insert_ne. congruence.
  - apply lookup_insert_eq.
  - intros j Hj. rewrite list_elem_of_In in *.
    apply in_rev. exact Hj.
Qed.

Lemma consumer_only_drains_optimism_witness :
  snd (consumer_iteration {["base"%string := [mkBlockJob "base" 1]]}) !! "base"%string
    = Some [mkBlockJob "base" 1].
Proof.
  exact (proj1 (consumer_only_drains_optimism {["base"%string := [mkBlockJob "base" 1]]})
           "base"%string ltac:(discriminate)).
Defined.

(** ** The tasks of [run] interleaved *)

Lemma last_cons_orelse {A : Type} (x : A) (l : list A) :
  last (x :: l) = orelse (last l) (Some x).
Proof. rewrite last_cons. destruct (last l); reflexivity. Qed.

Lemma jobs_for_snoc (k : string) (l : list BlockJob) (j : BlockJob) :
  jobs_for k (l ++ [j])
  = jobs_for k l ++ (if String.eqb (network j) k then [j] else []).
Proof. unfold jobs_for. rewrite List.filter_app. simpl. destruct (String.eqb (network j) k); reflexivity. Qed.

Lemma record_block_iteration (net : string) (cur : N) (st : WatcherState) :
  Forall (from_watcher net) (trace st) ->
  let st' := record_block net cur st in
  Forall (from_watcher net) (trace st') /\
  last_block st' = Some cur /\
  last (heights_set (trace st')) = Some cur /\
  last (pushes_of (trace st')) = Some (mkBlockJob net cur).
Proof.
  intros Hf. destruct (record_block_effects net cur st) as (R1 & _ & _ & R4).
  cbv zeta. rewrite R4. split; [|split; [exact R1|split]].
  - apply Forall_app. split; [exact Hf|]. repeat constructor.
  - unfold heights_set. rewrite omap_app. simpl. apply last_snoc.
  - unfold pushes_of. rewrite omap_app. simpl. apply last_snoc.
Qed.

(** One loop iteration of a watcher, started with no effect recorded:
    either it is a [continue] (no effect, [last_block] kept), or it ends
    by writing the height [cur] it records and pushing the job of [cur]. *)
Lemma watcher_step_iteration (net : string) (st : WatcherState) (d : BlockDetails) :
  trace st = [] ->
  let st' := watcher_step net st d in
  Forall (from_watcher net) (trace st') /\
  ((trace st' = [] /\ last_block st' = last_block st) \/
   exists cur, last_block st' = Some cur /\
     last (heights_set (trace st')) = Some cur /\
     last (pushes_of (trace st')) = Some (mkBlockJob net cur)).
Proof.
  intros Ht. cbv zeta. unfold watcher_step.
  destruct (last_block st) as [lb|] eqn:Hlb.
  - destruct (N.eqb lb (current_block_u64 d)).
    + rewrite Ht. split; [constructor|]. left. auto.
    + match goal with |- context [record_block net ?c ?st1] =>
        assert (Hf : Forall (from_watcher net) (trace st1));
        [|destruct (record_block_iteration net c st1 Hf) as (F & R1 & R2 & R3);
          split; [exact F|right; exists c; auto]] end.
      destruct (N.ltb (u64_wrapping_add lb 1) (current_block_u64 d)); [|rewrite Ht; constructor].
      destruct (catch_up_effects net (u64_wrapping_add lb 1) (current_block_u64 d)
        (send_log (ResumingDroppedConnection (current_block_u64 d)) st)) as (_ & _ & _ & C4).
      rewrite C4. simpl. rewrite Ht. simpl. constructor; [exact I|].
      apply Forall_forall. intros ev Hev. apply list_elem_of_In, in_map_iff in Hev.
      destruct Hev as (b & <- & _). reflexivity.
  - assert (Hf : Forall (from_watcher net) (trace st)) by (rewrite Ht; constructor).
    destruct (record_block_iteration net (current_block_u64 d) st Hf) as (F & R1 & R2 & R3).
    split; [exact F|right; exists (current_block_u64 d); auto].
Qed.

Lemma height_inv_initial (k : string) : height_inv initial_run k.
Proof. unfold height_inv. simpl. rewrite !lookup_empty. simpl. auto. Qed.

Lemma run_step_height_inv (s : RunState) (a : RunAction) :
  (forall k, height_inv s k) -> forall k, height_inv (run_step s a) k.
Proof.
  intros H k. destruct a as [net d|net|]; simpl.
  - destruct (default [] (pending s !! net)) as [|ev rest] eqn:Hp; [|exact (H k)].
    destruct (watcher_step_iteration net
      (mkWatcherState (local_last_block s !! net) (run_heights s) (run_jobs s) []) d eq_refl)
      as (F & [[T L]|(cur & L & R2 & R3)]).
    + unfold height_inv. simpl. destruct (decide (k = net)) as [->|Hne].
      * rewrite lookup_insert_eq. simpl. rewrite T. simpl.
        destruct (H net) as (_ & H2 & H3). rewrite Hp in H2, H3. simpl in H2, H3.
        simpl in L. rewrite L. destruct (local_last_block s !! net) as [h|] eqn:E.
        -- rewrite lookup_insert_eq. rewrite ?E in *. auto.
        -- rewrite ?E in *. auto.
      * rewrite lookup_insert_ne by congruence. simpl in L. rewrite L.
        destruct (local_last_block s !! net) as [h|];
          [rewrite lookup_insert_ne by congruence|]; exact (H k).
    + unfold height_inv. simpl. rewrite L. destruct (decide (k = net)) as [->|Hne].
      * rewrite !lookup_insert_eq. simpl. rewrite R2, R3. auto.
      * rewrite !lookup_insert_ne by congruence. exact (H k).
  - destruct (default [] (pending s !! net)) as [|ev rest] eqn:Hp; [exact (H k)|].
    destruct (H net) as (F & H2 & H3). rewrite Hp in F, H2, H3.
    apply Forall_cons in F as [Fev Frest].
    destruct (decide (k = net)) as [->|Hne].
    + destruct ev as [m|n h|j]; unfold height_inv; simpl; rewrite lookup_insert_eq; simpl.
      * simpl in H2, H3. auto.
      * simpl in Fev. subst n. rewrite lookup_insert_eq.
        simpl in H2, H3. rewrite last_cons_orelse in H2.
        destruct (last (heights_set rest)); simpl in *; auto.
      * simpl in Fev. rewrite jobs_for_snoc, Fev, String.eqb_refl, last_snoc.
        simpl in H2, H3. rewrite last_cons_orelse in H3.
        destruct (last (pushes_of rest)); simpl in *; auto.
    + destruct (H k) as (G1 & G2 & G3).
      destruct ev as [m|n h|j]; unfold height_inv; simpl; rewrite lookup_insert_ne by congruence.
      * auto.
      * simpl in Fev. subst n. rewrite lookup_insert_ne by congruence. auto.
      * simpl in Fev. rewrite jobs_for_snoc.
        destruct (String.eqb_spec (network j) k); [congruence|].
        rewrite app_nil_r. auto.
  - destruct (consumer_iteration (run_jobs s)) as [handled bj]. exact (H k).
Qed.

Lemma run_tasks_height_inv (acts : list RunAction) (k : string) :
  height_inv (run_tasks initial_run acts) k.
Proof.
  unfold run_tasks. revert k. cut (forall k, height_inv initial_run k).
  - generalize initial_run. induction acts as [|a acts IH]; intros s Hs; simpl; [exact Hs|].
    apply IH, run_step_height_inv, Hs.
  - apply height_inv_initial.
Qed.

(** Extra. In any interleaving of the watcher tasks (of any networks, each
    lock taken separately as in the source) with the consumer task of
    [run], a network whose watcher is between two loop iterations has its
    shared [current_block_height] equal to the watcher's local
    [last_block], and the last job pushed for it is the job of that
    height, whatever the consumer has popped since. *)
Theorem watcher_height_matches_last_job (acts : list RunAction) (net : string) :
  let s := run_tasks initial_run acts in
  default [] (pending s !! net) = [] ->
  run_heights s !! net = local_last_block s !! net /\
  last (jobs_for net (pushed s)) = mkBlockJob net <$> local_last_block s !! net.
Proof.
  intros s Hp. destruct (run_tasks_height_inv acts net) as (_ & H2 & H3).
  fold s in H2, H3. rewrite Hp in H2, H3. simpl in H2, H3. auto.
Qed.

Lemma watcher_height_matches_last_job_witness :
  let acts := [WatchNext "optimism" (Some (Some 5)); WatchEffect "optimism";
               WatchEffect "optimism"; ConsumerTurn; WatchEffect "optimism"] in
  run_jobs (run_tasks initial_run acts) !! "optimism"%string = Some [] /\
  last (jobs_for "optimism" (pushed (run_tasks initial_run acts)))
  = mkBlockJob "optimism" <$> local_last_block (run_tasks initial_run acts) !! "optimism"%string.
Proof.
  intros acts. split; [vm_compute; reflexivity|].
  exact (proj2 (watcher_height_matches_last_job acts "optimism"
                  ltac:(vm_compute; reflexivity))).
Defined.

Lemma queue_inv_initial : queue_inv initial_run.
Proof.
  unfold queue_inv. simpl. split; [|split].
  - intros k j. rewrite lookup_empty. simpl. intros Hj. apply elem_of_nil in Hj. contradiction.
  - intros k. rewrite lookup_empty. constructor.
  - intros j Hj. apply elem_of_nil in Hj. contradiction.
Qed.

Lemma run_step_queue_inv (s : RunState) (a : RunAction) :
  queue_inv s -> queue_inv (run_step s a).
Proof.
  intros (Q1 & Q2 & Q3). destruct a as [net d|net|]; simpl.
  - destruct (default [] (pending s !! net)) as [|ev rest] eqn:Hp;
      [|split; [exact Q1|split; [exact Q2|exact Q3]]].
    destruct (watcher_step_iteration net
      (mkWatcherState (local_last_block s !! net) (run_heights s) (run_jobs s) []) d eq_refl)
      as (F & _).
    split; [exact Q1|split; [|exact Q3]]. simpl. intros k.
    destruct (decide (k = net)) as [->|Hne].
    + rewrite lookup_insert_eq. exact F.
    + rewrite lookup_insert_ne by congruence. apply Q2.
  - destruct (default [] (pending s !! net)) as [|ev rest] eqn:Hp;
      [split; [exact Q1|split; [exact Q2|exact Q3]]|].
    pose proof (Q2 net) as F. rewrite Hp in F. apply Forall_cons in F as [Fev Frest].
    assert (Q2' : forall k, Forall (from_watcher k)
                    (default [] (<[net := rest]> (pending s) !! k))).
    { intros k. destruct (decide (k = net)) as [->|Hne].
      - rewrite lookup_insert_eq. exact Frest.
      - rewrite lookup_insert_ne by congruence. apply Q2. }
    destruct ev as [m|n h|j]; simpl.
    + split; [exact Q1|split; [exact Q2'|exact Q3]].
    + split; [exact Q1|split; [exact Q2'|exact Q3]].
    + simpl in Fev. cbn [run_jobs pushed processed pending]. split; [|split; [exact Q2'|]].
      * intros k j' Hj'. cbn [run_jobs pushed] in Hj' |- *.
        destruct (decide (k = net)) as [->|Hne].
        -- rewrite lookup_insert_eq in Hj'. simpl in Hj'.
           apply elem_of_app in Hj' as [Hj'|Hj'].
           ++ destruct (Q1 net j' Hj') as [N1 N2]. split; [exact N1|].
              apply elem_of_app. left. exact N2.
           ++ apply list_elem_of_singleton in Hj' as ->. split; [exact Fev|].
              apply elem_of_app. right. apply list_elem_of_singleton. reflexivity.
        -- rewrite lookup_insert_ne in Hj' by congruence.
           destruct (Q1 k j' Hj') as [N1 N2]. split; [exact N1|].
           apply elem_of_app. left. exact N2.
      * intros j' Hj'. cbn [processed pushed] in Hj' |- *.
        destruct (Q3 j' Hj') as [N1 N2]. split; [exact N1|].
        apply elem_of_app. left. exact N2.
  - rewrite consumer_iteration_rev. simpl. split; [|split; [exact Q2|]].
    + intros k j Hj. cbn [run_jobs pushed] in Hj |- *.
      destruct (decide (k = "optimism"%string)) as [->|Hne].
      * rewrite lookup_insert_eq in Hj. simpl in Hj. apply elem_of_nil in Hj. contradiction.
      * rewrite lookup_insert_ne in Hj by congruence. exact (Q1 k j Hj).
    + intros j Hj. cbn [processed pushed] in Hj |- *.
      apply elem_of_app in Hj as [Hj|Hj]; [exact (Q3 j Hj)|].
      apply Q1. rewrite list_elem_of_In in *. apply in_rev. exact Hj.
Qed.

Lemma run_tasks_queue_inv (acts : list RunAction) : queue_inv (run_tasks initial_run acts).
Proof.
  unfold run_tasks. generalize queue_inv_initial. generalize initial_run.
  induction acts as [|a acts IH]; intros s Hs; simpl; [exact Hs|].
  apply IH, run_step_queue_inv, Hs.
Qed.

(** Extra. In any interleaving of the watcher tasks (of any networks) with
    the consumer task of [run], every job the consumer hands to
    [process_block] is a job some watcher pushed, and a job of "optimism":
    jobs queued for any other network are never processed. *)
Theorem watcher_other_network_never_processed (acts : list RunAction) (j : BlockJob) :
  j ∈ processed (run_tasks initial_run acts) ->
  network j = "optimism"%string /\ j ∈ pushed (run_tasks initial_run acts).
Proof. intros Hj. destruct (run_tasks_queue_inv acts) as (_ & _ & Q3). exact (Q3 j Hj). Qed.

Lemma watcher_other_network_never_processed_witness :
  let acts := [WatchNext "base" (Some (Some 9)); WatchEffect "base"; WatchEffect "base";
               WatchNext "optimism" (Some (Some 5)); WatchEffect "optimism";
               WatchEffect "optimism"; ConsumerTurn] in
  run_jobs (run_tasks initial_run acts) !! "base"%string = Some [mkBlockJob "base" 9] /\
  network (mkBlockJob "optimism" 5) = "optimism"%string.
Proof.
  intros acts. split; [vm_compute; reflexivity|].
  exact (proj1 (watcher_other_network_never_processed acts (mkBlockJob "optimism" 5)
                  ltac:(vm_compute; left))).
Defined.

(** ** [process_block] fetches once and swallows errors *)

(** Extra. [process_block] does nothing when the job's network has no
    provider; otherwise it starts with exactly one block fetch, at the
    job's height (no retry), and a failed fetch ends the job with no
    further effect, no recency flag and no interesting transaction. *)
Theorem process_block_single_fetch (m : Monitor) (job : BlockJob) :
  (providers m !! network job = None -> process_block m job = mkProcOutcome [] [] None) /\
  (forall p, providers m !! network job = Some p ->
     head (proc_effects (process_block m job)) = Some (PGetBlockWithTxs (block job)) /\
     length (List.filter is_block_fetch (proc_effects (process_block m job))) = 1%nat) /\
  (forall p e, providers m !! network job = Some p ->
     get_block_with_txs p (block job) = Err e ->
     process_block m job = mkProcOutcome [PGetBlockWithTxs (block job)] [] None).
Proof.
  unfold process_block. split; [|split].
  - intros H. rewrite H. reflexivity.
  - intros p H. rewrite H. destruct (get_block_with_txs p (block job)) as [[b|]|e];
      split; reflexivity.
  - intros p e H He. rewrite H, He. reflexivity.
Qed.

Lemma process_block_single_fetch_witness :
  process_block (serving_monitor (Err "timeout"%string) ∅) (mkBlockJob "optimism" 7)
    = mkProcOutcome [PGetBlockWithTxs 7] [] None /\
  process_block (serving_monitor (Err "timeout"%string) ∅) (mkBlockJob "base" 7)
    = mkProcOutcome [] [] None.
Proof.
  split.
  - exact (proj2 (proj2 (process_block_single_fetch
             (serving_monitor (Err "timeout"%string) ∅) (mkBlockJob "optimism" 7)))
             (mkProvider (fun _ => Err "timeout"%string)) "timeout"%string eq_refl eq_refl).
  - exact (proj1 (process_block_single_fetch
             (serving_monitor (Err "timeout"%string) ∅) (mkBlockJob "base" 7)) eq_refl).
Defined.

(** ** [retry] for any number of attempts *)

Lemma retry_loop_all_fail {T E : Type} (holograph_env : option string) (network : string)
    (func : nat -> Result T E) (attempts : nat) (interval : N) (p : string * string) :
  structured_log_error_tags holograph_env network = Returns p ->
  (forall k, exists e, func k = Err e) ->
  forall fuel i0, (1 <= fuel)%nat -> (i0 + fuel = attempts)%nat ->
  fst (retry_loop holograph_env network func attempts interval i0 fuel)
  = Returns (Err (MaxAttemptsReached attempts)) /\
  invocations (snd (retry_loop holograph_env network func attempts interval i0 fuel))
  = seq i0 fuel /\
  sleeps (snd (retry_loop holograph_env network func attempts interval i0 fuel))
  = repeat interval (fuel - 1).
Proof.
  intros Hp Hf fuel. induction fuel as [|fuel IH]; intros i0 H1 Hsum; [lia|].
  cbn [retry_loop]. destruct (Hf i0) as [e He]. rewrite He, Hp.
  destruct (Nat.eqb_spec i0 (attempts - 1)) as [Heq|Hne].
  - assert (fuel = 0%nat) as -> by lia. simpl. auto.
  - destruct (IH (S i0) ltac:(lia) ltac:(lia)) as (I1 & I2 & I3).
    destruct (retry_loop holograph_env network func attempts interval (S i0) fuel)
      as [res tr].
    simpl in *. rewrite I2, I3. split; [exact I1|]. split; [reflexivity|].
    destruct fuel as [|fuel]; [lia|]. cbn. rewrite Nat.sub_0_r. reflexivity.
Qed.

(** Extra. With [attempts >= 1] and an operation that always fails: when
    the network tag of [structured_log_error] can be built (by
    [structured_log_error_network_tag], exactly when the name starts with
    an ASCII character), [retry] invokes the operation exactly [attempts]
    times (indices 0 to attempts-1), sleeps [interval] exactly
    [attempts - 1] times, and returns "Maximum attempts reached" for
    [attempts], never the "Unexpected error in retry loop" return;
    otherwise it panics right after the first invocation. *)
Theorem retry_exhausts_any_attempts {T E : Type} (holograph_env : option string)
    (network : string) (func : nat -> Result T E) (attempts : nat) (interval : N) :
  (1 <= attempts)%nat -> (forall k, exists e, func k = Err e) ->
  match structured_log_error_tags holograph_env network with
  | Returns _ =>
      fst (retry holograph_env network func attempts interval)
      = Returns (Err (MaxAttemptsReached attempts)) /\
      invocations (snd (retry holograph_env network func attempts interval))
      = seq 0 attempts /\
      sleeps (snd (retry holograph_env network func attempts interval))
      = repeat interval (attempts - 1)
  | Panics m => retry holograph_env network func attempts interval = (Panics m, [RInvoke 0%nat])
  end.
Proof.
  intros H1 Hf.
  destruct (structured_log_error_tags holograph_env network) as [p|m] eqn:Hp.
  - unfold retry. apply (retry_loop_all_fail holograph_env network func attempts interval p);
      [exact Hp|exact Hf|lia|lia].
  - unfold retry. destruct attempts as [|a]; [lia|]. cbn [retry_loop].
    destruct (Hf 0%nat) as [e He]. rewrite He, Hp. reflexivity.
Qed.

Lemma retry_exhausts_any_attempts_witness :
  sleeps (snd (retry None "optimism" (fun _ => @Err nat string "timeout") 5 250))
    = [250; 250; 250; 250] /\
  retry None "" (fun _ => @Err nat string "timeout") 5 250
    = (Panics "byte index 1 is out of bounds", [RInvoke 0%nat]).
Proof.
  split.
  - exact (proj2 (proj2 (retry_exhausts_any_attempts None "optimism"
             (fun _ => @Err nat string "timeout") 5 250 ltac:(lia)
             (fun _ => ex_intro _ "timeout"%string eq_refl)))).
  - exact (retry_exhausts_any_attempts None "" (fun _ => @Err nat string "timeout") 5 250
             ltac:(lia) (fun _ => ex_intro _ "timeout"%string eq_refl)).
Defined.

(** Extra. With [attempts = 0] the loop body never runs: [retry] invokes
    nothing, logs nothing (so it cannot panic), sleeps never, and returns
    "Unexpected error in retry loop". *)
Theorem retry_zero_attempts {T E : Type} (holograph_env : option string) (network : string)
    (func : nat -> Result T E) (interval : N) :
  retry holograph_env network func 0 interval = (Returns (Err UnexpectedRetryLoop), []).
Proof. reflexivity. Qed.

(** ** [get_env], [get_abis] and the start of [initialize_ethers] *)

Lemma get_env_ok (holograph_env : option string) (e : Environment) :
  get_env holograph_env = Ok e <->
  (holograph_env = None /\ e = Develop) \/ holograph_env = Some (env_var_name e).
Proof.
  split.
  - destruct holograph_env as [s|]; [|intros H; injection H as <-; auto].
    unfold get_env. simpl.
    destruct (String.eqb_spec s "localhost") as [->|_];
      [intros H; injection H as <-; auto|].
    destruct (String.eqb_spec s "experimental") as [->|_];
      [intros H; injection H as <-; auto|].
    destruct (String.eqb_spec s "develop") as [->|_];
      [intros H; injection H as <-; auto|].
    destruct (String.eqb_spec s "testnet") as [->|_];
      [intros H; injection H as <-; auto|].
    destruct (String.eqb_spec s "mainnet") as [->|_];
      [intros H; injection H as <-; auto|].
    discriminate.
  - intros [[-> ->]| ->]; [reflexivity|]. destruct e; reflexivity.
Qed.

(** Extra. [holograph_env] is the result of [std::env::var("HOLOGRAPH_ENV")],
    [None] for its error (unset, or not valid Unicode). [get_env] returns
    [Ok e] exactly when the variable cannot be read and [e] is [Develop],
    or its value is the lower-case name of [e]; any other value makes it
    return [Err] with the message "Unsupported HOLOGRAPH_ENV value". *)
Theorem get_env_accepts (holograph_env : option string) :
  (forall e, get_env holograph_env = Ok e <->
     (holograph_env = None /\ e = Develop) \/ holograph_env = Some (env_var_name e)) /\
  (forall s, holograph_env = Some s -> (forall e, s <> env_var_name e) ->
     get_env holograph_env = Err "Unsupported HOLOGRAPH_ENV value"%string).
Proof.
  split; [apply get_env_ok|].
  intros s -> Hs. unfold get_env. simpl.
  destruct (String.eqb_spec s "localhost") as [->|_]; [destruct (Hs Localhost); reflexivity|].
  destruct (String.eqb_spec s "experimental") as [->|_];
    [destruct (Hs Experimental); reflexivity|].
  destruct (String.eqb_spec s "develop") as [->|_]; [destruct (Hs Develop); reflexivity|].
  destruct (String.eqb_spec s "testnet") as [->|_]; [destruct (Hs Testnet); reflexivity|].
  destruct (String.eqb_spec s "mainnet") as [->|_]; [destruct (Hs Mainnet); reflexivity|].
  reflexivity.
Qed.

Lemma get_env_accepts_witness :
  get_env (Some "testnet"%string) = Ok Testnet /\
  get_env (Some "staging"%string) = Err "Unsupported HOLOGRAPH_ENV value"%string.
Proof.
  split.
  - apply (proj2 (proj1 (get_env_accepts (Some "testnet"%string)) Testnet)).
    right. reflexivity.
  - apply (proj2 (get_env_accepts (Some "staging"%string)) "staging"%string eq_refl).
    intros e. destruct e; discriminate.
Defined.

Lemma get_abis_not_develop (environment : string) :
  environment <> "develop"%string -> get_abis environment = Panics "Unsupported environment".
Proof.
  intros H. assert (Ha : abi_path environment "CxipERC721" = Panics "Unsupported environment").
  { unfold abi_path. destruct (String.eqb_spec environment "develop"); [contradiction|reflexivity]. }
  unfold get_abis. rewrite Ha. reflexivity.
Qed.

(** Extra. [abi_path] panics with "Unsupported environment" for every
    environment but "develop", so [get_abis] does too; for "develop" it
    panics with "Unsupported contract" exactly for the names outside its
    sixteen contracts, and [get_abis "develop"] returns. *)
Theorem get_abis_only_develop (environment contract : string) :
  (environment <> "develop"%string ->
     abi_path environment contract = Panics "Unsupported environment" /\
     get_abis environment = Panics "Unsupported environment") /\
  (abi_path "develop" contract = Panics "Unsupported contract" <->
     contract ∉ map fst develop_abis) /\
  (exists abis, get_abis "develop" = Returns abis).
Proof.
  split; [|split].
  - intros H. split; [|apply get_abis_not_develop, H].
    unfold abi_path. destruct (String.eqb_spec environment "develop"); [contradiction|reflexivity].
  - unfold abi_path. simpl String.eqb. cbv iota beta.
    destruct (List.find (fun nf => String.eqb nf.1 contract) develop_abis) as [nf|] eqn:Hf.
    + split; [discriminate|]. intros Hn. exfalso. apply Hn.
      apply List.find_some in Hf as [Hin Heq]. apply String.eqb_eq in Heq.
      apply list_elem_of_In, in_map_iff. exists nf. auto.
    + split; [intros _|reflexivity]. intros Hin.
      apply list_elem_of_In, in_map_iff in Hin as (nf & Hnf & Hin).
      pose proof (List.find_none _ _ Hf nf Hin) as Hc. simpl in Hc.
      rewrite Hnf, String.eqb_refl in Hc. discriminate.
  - eexists. reflexivity.
Qed.

Lemma get_abis_only_develop_witness :
  get_abis "mainnet" = Panics "Unsupported environment".
Proof.
  exact (proj2 (proj1 (get_abis_only_develop "mainnet" "Holograph") ltac:(discriminate))).
Defined.

(** Extra. When PROVIDER_URL cannot be read, [initialize_ethers] returns
    an error; when its value is not a URL [Url::parse] accepts, it panics
    in [Provider::<Http>::connect]. Otherwise an unsupported HOLOGRAPH_ENV
    returns "Unsupported HOLOGRAPH_ENV value", every supported environment
    other than develop passes [get_env] and then panics in [get_abis] with
    "Unsupported environment", and develop (or an unreadable HOLOGRAPH_ENV)
    reaches the creation of the holograph contract at the develop address
    with the develop ABI. *)
Theorem initialize_ethers_only_develop (url_parses : string -> bool)
    (provider_url : Result string VarError) (holograph_env : option string) :
  (forall v, provider_url = Err v ->
     exists m, initialize_ethers_stage url_parses provider_url holograph_env = InitError m) /\
  (forall u, provider_url = Ok u -> url_parses u = false ->
     exists m, initialize_ethers_stage url_parses provider_url holograph_env = InitPanic m) /\
  (forall u m, provider_url = Ok u -> url_parses u = true -> get_env holograph_env = Err m ->
     initialize_ethers_stage url_parses provider_url holograph_env = InitError m) /\
  (forall u e, provider_url = Ok u -> url_parses u = true ->
     get_env holograph_env = Ok e -> e <> Develop ->
     initialize_ethers_stage url_parses provider_url holograph_env
     = InitPanic "Unsupported environment") /\
  (forall u, provider_url = Ok u -> url_parses u = true -> get_env holograph_env = Ok Develop ->
     initialize_ethers_stage url_parses provider_url holograph_env
     = InitCreateHolograph Develop "0x8dd0A4D129f03F1251574E545ad258dE26cD5e97"
         "../../abis/develop/Holograph.json").
Proof.
  split; [|split; [|split; [|split]]].
  - intros [|] ->; eexists; reflexivity.
  - intros u -> Hu. simpl. rewrite Hu. eexists. reflexivity.
  - intros u m -> Hu Hm. simpl. rewrite Hu, Hm. reflexivity.
  - intros u e -> Hu He Hne. simpl. rewrite Hu, He.
    apply get_env_ok in He as [[_ Hd]| ->]; [contradiction|].
    simpl. rewrite get_abis_not_develop; [reflexivity|].
    destruct e; simpl; [discriminate|discriminate|contradiction|discriminate|discriminate].
  - intros u -> Hu Hd. simpl. rewrite Hu, Hd.
    apply get_env_ok in Hd as [[-> _]| ->]; reflexivity.
Qed.

Lemma initialize_ethers_only_develop_witness :
  let url_parses (u : string) := String.prefix "http" u in
  initialize_ethers_stage url_parses (Ok "http://localhost:8545"%string) (Some "testnet"%string)
  = InitPanic "Unsupported environment" /\
  (exists m, initialize_ethers_stage url_parses (Ok "not a url"%string) None = InitPanic m).
Proof.
  intros url_parses. split.
  - exact (proj1 (proj2 (proj2 (proj2 (initialize_ethers_only_develop url_parses
             (Ok "http://localhost:8545"%string) (Some "testnet"%string)))))
             "http://localhost:8545"%string Testnet eq_refl eq_refl eq_refl ltac:(discriminate)).
  - exact (proj1 (proj2 (initialize_ethers_only_develop url_parses
             (Ok "not a url"%string) None)) "not a url"%string eq_refl eq_refl).
Defined.

(** ** The network tag of [structured_log_error] *)

(** Extra. [structured_log_error] panics when the network name is empty or
    starts with a character of more than one byte; otherwise its network
    tag is the name with an ASCII lower-case first letter turned upper-case
    and the rest kept, and its environment tag is "UnknownEnv" when
    HOLOGRAPH_ENV is not supported. *)
Theorem structured_log_error_network_tag (holograph_env : option string)
    (c : Ascii.ascii) (rest : string) :
  structured_log_error_tags holograph_env "" = Panics "byte index 1 is out of bounds" /\
  ((128 <= Ascii.nat_of_ascii c)%nat ->
     structured_log_error_tags holograph_env (String c rest)
     = Panics "byte index 1 is not a char boundary") /\
  ((Ascii.nat_of_ascii c < 128)%nat ->
     exists env_name,
       structured_log_error_tags holograph_env (String c rest)
       = Returns (String (ascii_to_upper c) rest, env_name) /\
       (forall m, get_env holograph_env = Err m -> env_name = "UnknownEnv"%string)) /\
  ((97 <= Ascii.nat_of_ascii c <= 122)%nat ->
     Ascii.nat_of_ascii (ascii_to_upper c) = (Ascii.nat_of_ascii c - 32)%nat).
Proof.
  split; [reflexivity|]. split; [|split].
  - intros H. unfold structured_log_error_tags. simpl.
    destruct (Nat.ltb_spec (Ascii.nat_of_ascii c) 128); [lia|reflexivity].
  - intros H. unfold structured_log_error_tags. simpl.
    destruct (Nat.ltb_spec (Ascii.nat_of_ascii c) 128); [|lia]. simpl.
    eexists. split; [reflexivity|]. intros m Hm. rewrite Hm. reflexivity.
  - intros [Hlo Hhi]. unfold ascii_to_upper.
    destruct (Nat.leb_spec 97 (Ascii.nat_of_ascii c)); [|lia].
    destruct (Nat.leb_spec (Ascii.nat_of_ascii c) 122); [|lia]. simpl.
    apply Ascii.nat_ascii_embedding. lia.
Qed.

Lemma structured_log_error_network_tag_witness :
  structured_log_error_tags None "optimism" = Returns ("Optimism", "Develop")%string.
Proof.
  destruct (proj1 (proj2 (proj2 (structured_log_error_network_tag None (Ascii.ascii_of_nat 111) "ptimism")))
              ltac:(vm_compute; lia)) as (env_name & Heq & _).
  change "optimism"%string with (String (Ascii.ascii_of_nat 111) "ptimism").
  rewrite Heq. vm_compute in Heq. injection Heq as <-. reflexivity.
Defined.

(** ** [filter_builder] as an insert into the bloom filter map *)

Lemma find_filter_other (k k' : EventType) (m : BloomFilterMap) :
  k <> k' ->
  List.find (fun kv => bool_decide (kv.1 = k))
    (List.filter (fun kv => negb (bool_decide (kv.1 = k'))) m)
  = List.find (fun kv => bool_decide (kv.1 = k)) m.
Proof.
  intros Hne. induction m as [|[k0 v0] m IH]; [reflexivity|]. simpl.
  destruct (decide (k0 = k')) as [->|Hn].
  - rewrite bool_decide_true by reflexivity. simpl.
    rewrite bool_decide_false by congruence. exact IH.
  - rewrite bool_decide_false by exact Hn. simpl.
    destruct (bool_decide (k0 = k)); [reflexivity|exact IH].
Qed.

Lemma bloom_lookup_insert (k k' : EventType) (v : BloomFilter) (m : BloomFilterMap) :
  bloom_lookup k (bloom_insert k' v m)
  = if bool_decide (k = k') then Some v else bloom_lookup k m.
Proof.
  unfold bloom_lookup, bloom_insert. simpl.
  destruct (decide (k = k')) as [->|Hne].
  - rewrite !bool_decide_true by reflexivity. reflexivity.
  - rewrite bool_decide_false by congruence. rewrite bool_decide_false by exact Hne.
    rewrite find_filter_other by exact Hne. reflexivity.
Qed.

(** Extra. After [filter_builder], looking up one of its ten event kinds
    gives the (empty) filter it built, and looking up any other kind gives
    what the map held before. *)
Theorem filter_builder_lookup (contracts : gmap string string) (m : BloomFilterMap)
    (k : EventType) :
  bloom_lookup k (filter_builder contracts m)
  = if bool_decide (k ∈ filter_kinds) then Some [] else bloom_lookup k m.
Proof.
  unfold filter_builder. cbn [fold_left fst snd].
  rewrite !bloom_lookup_insert. destruct k; reflexivity.
Qed.

